(** * neo3-gogogo: the script builder of package [sc]

    A shallow embedding of [sc/scriptBuilder.go] and the properties of the
    byte stream it produces.  The builder owns a growable byte buffer and an
    ordered list of recorded errors; every method of the Go type is a
    function from builder states to builder states here.  A Go run-time panic
    (a failed single-value type assertion, a nil [*big.Int]) is an explicit
    outcome, [Panic]. *)

From Stdlib Require Import ZArith String Ascii Bool Lia Arith List.
Import ListNotations.

#[local] Set Warnings "-register-all".

Local Open Scope Z_scope.

(** ** Bytes and fixed-width little-endian integers *)

(** A byte is an integer in [0, 256); conversions [byte(x)], [uint16(x)],
    [uint32(x)] of Go are the wrap-arounds written out below. *)
Definition byte := Z.

Definition to_byte (x : Z) : byte := x mod 256.
Definition to_uint16 (x : Z) : Z := x mod 2 ^ 16.
Definition to_uint32 (x : Z) : Z := x mod 2 ^ 32.

(** [int64(x)]: the two's-complement reading of the low 64 bits. *)
Definition to_int64 (x : Z) : Z := (x + 2 ^ 63) mod 2 ^ 64 - 2 ^ 63.

(** [w] bytes of [x], least significant first. *)
Fixpoint le_bytes (w : nat) (x : Z) : list byte :=
  match w with
  | O => []
  | S w' => x mod 256 :: le_bytes w' (x / 256)
  end.

(** The unsigned number a little-endian byte string denotes. *)
Fixpoint le_value (bs : list byte) : Z :=
  match bs with
  | [] => 0
  | b :: bs' => b + 256 * le_value bs'
  end.

(** The signed (two's-complement) number a little-endian byte string
    denotes: the top bit of the last byte is the sign. *)
Definition le_signed (bs : list byte) : Z :=
  let u := le_value bs in
  let bits := 8 * Z.of_nat (length bs) in
  if u <? 2 ^ (bits - 1) then u else u - 2 ^ bits.

Definition is_byte (b : Z) : Prop := 0 <= b < 256.

(** The separator of [strings.Join(ss, "\n")]. *)
Definition newline : string := String (ascii_of_nat 10) EmptyString.

(** ** Helpers of package [helper] *)

(** [n] is a [k]-byte two's-complement number: [-2^(8k-1) <= n < 2^(8k-1)]. *)
Definition fits (k : nat) (n : Z) : Prop :=
  - 256 ^ Z.of_nat k <= 2 * n < 256 ^ Z.of_nat k.

(** The non-negative number with the bits of [n] below the sign. *)
Definition magnitude (n : Z) : Z := if n <? 0 then - n - 1 else n.

(** The byte that continues [n] above its top byte. *)
Definition ext_byte (n : Z) : byte := if n <? 0 then 255 else 0.

(** Number of bytes of the shortest two's-complement form of [n]: the
    magnitude has [Z.log2 m + 1] bits, the sign takes one more. *)
Definition min_len (n : Z) : nat :=
  Z.to_nat ((Z.log2 (magnitude n) + 9) / 8).

(** Modelled from the spec: [helper.BigIntToNeoBytes] is missing from the
    sources.  Section 4.2 has it compute "the minimal two's-complement
    little-endian byte representation of the value". *)
Definition BigIntToNeoBytes (n : Z) : list byte := le_bytes (min_len n) n.

(** The byte that extends a two's-complement string on its high end: [0xFF]
    when the top bit of the last byte is set, [0x00] otherwise. *)
Definition sign_byte (data : list byte) : byte :=
  if 128 <=? last data 0 then 255 else 0.

(** Modelled from the spec: [helper.PadRight] is missing from the sources.
    The call sites pass the data and the width only; section 4.2 has the data
    padded "on the high end to the class width" with "the sign-extension
    byte, 0x00 for non-negative, 0xFF for negative", and section 9 calls the
    helper a "simple truncation/padding" one: longer data is cut to the
    width. *)
Definition PadRight (data : list byte) (len : nat) : list byte :=
  if (len <=? length data)%nat then firstn len data
  else data ++ repeat (sign_byte data) (len - length data).

(** Modelled from the spec: [helper.IntToBytes] is missing from the sources.
    Section 4.3 has the offset "encoded as a 4-byte little-endian signed
    integer". *)
Definition IntToBytes (n : Z) : list byte := le_bytes 4 (to_uint32 n).

(** Modelled from the spec: [helper.UInt16ToBytes] is missing from the
    sources.  Section 4.2 has "the length encoded little-endian at the chosen
    width", two bytes here. *)
Definition UInt16ToBytes (n : Z) : list byte := le_bytes 2 n.

(** Modelled from the spec: [helper.UInt32ToBytes] is missing from the
    sources.  It is the four-byte encoder of the same sentence of section
    4.2, and of the "fixed 4-byte identifier" of section 6. *)
Definition UInt32ToBytes (n : Z) : list byte := le_bytes 4 n.

(** ** The builder *)

Record ScriptBuilder : Type := mkScriptBuilder {
  buff : list byte;
  errs : list string
}.

(** A Go slice that the code compares with [nil]: [None] is the nil slice. *)
Definition slice (A : Type) : Type := option (list A).

Definition len {A : Type} (s : slice A) : nat :=
  match s with
  | None => O
  | Some l => length l
  end.

(** Outcome of a call that may panic. *)
Inductive Result (A : Type) : Type :=
| Ok (a : A)
| Panic.
Arguments Ok {A} a.
Arguments Panic {A}.

Definition bind {A B : Type} (r : Result A) (f : A -> Result B) : Result B :=
  match r with
  | Ok a => f a
  | Panic => Panic
  end.

Declare Scope go_scope.
Notation "x <- c1 ;; c2" := (bind c1 (fun x => c2))
  (at level 61, c1 at next level, right associativity) : go_scope.
Local Open Scope go_scope.

Definition addError (err : option string) (sb : ScriptBuilder) : ScriptBuilder :=
  match err with
  | Some e => mkScriptBuilder (buff sb) (errs sb ++ [e])
  | None => sb
  end.

Definition NewScriptBuilder : ScriptBuilder := mkScriptBuilder [] [].

(** [bytes.Buffer.WriteByte] and [Write] always return a nil error. *)
Definition WriteByte (b : byte) (sb : ScriptBuilder) : ScriptBuilder :=
  mkScriptBuilder (buff sb ++ [b]) (errs sb).

Definition Write (p : list byte) (sb : ScriptBuilder) : ScriptBuilder :=
  mkScriptBuilder (buff sb ++ p) (errs sb).

(** ** Values the builder receives *)

(** The ten fixed-width integer types of the type switches. *)
Inductive IntKind : Type :=
| KInt8 | KUint8 | KInt16 | KUint16 | KInt32 | KUint32
| KInt64 | KUint64 | KInt | KUint.

(** Modelled from the spec: the [io.ISerializable] objects pushed by this
    file are the fixed-size identifiers [*helper.UInt160] and
    [*helper.UInt256] (section 3, section 6); their types are missing from
    the sources.  An identifier is a pointer that is not nil, held as its
    canonical bytes. *)
Inductive Serializable : Type :=
| SerUInt160 (v : list byte)
| SerUInt256 (v : list byte).

Inductive ContractParameterType : Type :=
| Signature | ByteArray | Boolean | Integer | Hash160 | Hash256
| PublicKey | String | Array | Map
| OtherParameterType.

(** A value of type [interface{}], by its dynamic type.  [VNilInterface] is
    the nil interface value, [VTypesNil] a value of type [types.Nil],
    [VBigIntPtr None] a nil [*big.Int], [VOther] a value of any type the
    switches do not name.  A map is held as its pairs in the order the
    [range] loop of this run visits them. *)
Inductive GoValue : Type :=
| VNilInterface
| VCallFlags (f : Z)
| VBool (b : bool)
| VBytes (d : slice byte)
| VString (s : list byte)
| VBigInt (n : Z)
| VBigIntPtr (p : option Z)
| VSerializable (s : Serializable)
| VInt (k : IntKind) (z : Z)
| VParam (p : ContractParameter)
| VTypesNil
| VParams (a : list ContractParameter)
| VMap (m : option (list (GoValue * GoValue)))
| VOther
with ContractParameter : Type :=
| mkContractParameter (Type_ : ContractParameterType) (Value : GoValue).

Definition param_Type (p : ContractParameter) : ContractParameterType :=
  match p with mkContractParameter t _ => t end.

Definition param_Value (p : ContractParameter) : GoValue :=
  match p with mkContractParameter _ v => v end.

(** Modelled from the spec: [io.ToArray] is missing from the sources.
    Section 6 has it produce, for "an object representing a 160-bit or
    256-bit identifier", "its canonical byte representation".  The result is
    the pair of Go, bytes and error. *)
Definition io_ToArray (data : Serializable) : slice byte * option string :=
  match data with
  | SerUInt160 v => (Some v, None)
  | SerUInt256 v => (Some v, None)
  end.

(** ** What the file takes from the rest of the package *)

(** The opcodes the builder names.  [sc/OpCode.go] is missing from the
    sources; the values are left open and the facts used about them are
    stated where they are used. *)
Class OpCodes : Type := {
  PUSHINT8 : byte; PUSHINT16 : byte; PUSHINT32 : byte;
  PUSHINT64 : byte; PUSHINT128 : byte; PUSHINT256 : byte;
  PUSHNULL : byte;
  PUSHDATA1 : byte; PUSHDATA2 : byte; PUSHDATA4 : byte;
  PUSHM1 : byte; PUSH0 : byte; PUSH1 : byte;
  JMP : byte; JMPLE_L : byte;
  CALL : byte; CALL_L : byte;
  SYSCALL : byte;
  DUP : byte;
  NEWARRAY0 : byte; PACK : byte; NEWMAP : byte; SETITEM : byte
}.

(** [All] is the all-permissions call flag, [Call_ToInteropMethodHash] the
    value of [Call.ToInteropMethodHash()], and [Errorf] the message of the
    error [fmt.Errorf] builds from a format without operands. *)
Class Externals : Type := {
  All : Z;
  Call_ToInteropMethodHash : Z;
  Errorf : string -> string
}.

(** Loops [for i := len(a) - 1; i >= 0; i-- { push(a[i]) }]: [i] is the
    number of elements still to visit, the next one is [a[i-1]]. *)
Fixpoint for_down {A : Type} (push : A -> ScriptBuilder -> Result ScriptBuilder)
    (a : list A) (i : nat) (sb : ScriptBuilder) : Result ScriptBuilder :=
  match i with
  | O => Ok sb
  | S j =>
      match nth_error a j with
      | Some x => sb' <- push x sb ;; for_down push a j sb'
      | None => Panic
      end
  end.

(** The same loop by recursion on the slice, for the places where the
    elements are parts of the value being pushed: the elements after [x] are
    visited before [x]. *)
Definition for_rev {A : Type} (push : A -> ScriptBuilder -> Result ScriptBuilder)
    : list A -> ScriptBuilder -> Result ScriptBuilder :=
  fix go (a : list A) (sb : ScriptBuilder) : Result ScriptBuilder :=
    match a with
    | [] => Ok sb
    | x :: t => sb' <- go t sb ;; push x sb'
    end.

Section Builder.

Context {opcodes : OpCodes} {externals : Externals}.

(** [ToArray]: the buffer, and the recorded errors joined into one. *)
Definition ToArray (sb : ScriptBuilder) : list byte * option string :=
  if (length (errs sb) =? 0)%nat then (buff sb, None)
  else (buff sb, Some (Errorf (String.concat newline (errs sb)))).

(** [Emit]: the opcode byte, then the immediate bytes when there are any.
    [OpCode] is a byte type: [byte(op)] changes nothing. *)
Definition Emit (op : byte) (arg : slice byte) (sb : ScriptBuilder) : ScriptBuilder :=
  let sb := addError None (WriteByte op sb) in
  match arg with
  | Some a => addError None (Write a sb)
  | None => sb
  end.

Definition EmitCall (offset : Z) (sb : ScriptBuilder) : ScriptBuilder :=
  if (offset <? -128) || (offset >? 127)
  then Emit CALL_L (Some (IntToBytes offset)) sb
  else Emit CALL (Some [to_byte offset]) sb.

Definition EmitJump (op : byte) (offset : Z) (sb : ScriptBuilder) : ScriptBuilder :=
  let sb :=
    if (op <? JMP) || (op >? JMPLE_L)
    then addError (Some "argument out of range: invalid OpCode"%string) sb
    else sb in
  let op :=
    if (op mod 2 =? 0) && ((offset <? -128) || (offset >? 127))
    then to_byte (op + 1)
    else op in
  if op mod 2 =? 0
  then Emit op (Some [to_byte offset]) sb
  else Emit op (Some (IntToBytes offset)) sb.

(** [EmitPushBigInt] is given the number a non-nil [*big.Int] points to; the
    nil pointer is the case [VBigIntPtr None] of [EmitPushObject] below. *)
Definition EmitPushBigInt (number : Z) (sb : ScriptBuilder) : ScriptBuilder :=
  if (-1 <=? number) && (number <=? 16) then
    let b := to_byte (to_int64 number) in
    Emit (to_byte (PUSH0 + b)) None sb
  else
    let data := BigIntToNeoBytes number in
    if (length data =? 1)%nat then Emit PUSHINT8 (Some data) sb
    else if (length data =? 2)%nat then Emit PUSHINT16 (Some data) sb
    else if (length data <=? 4)%nat then Emit PUSHINT32 (Some (PadRight data 4)) sb
    else if (length data <=? 8)%nat then Emit PUSHINT64 (Some (PadRight data 8)) sb
    else if (length data <=? 16)%nat then Emit PUSHINT128 (Some (PadRight data 16)) sb
    else if (length data <=? 32)%nat then Emit PUSHINT256 (Some (PadRight data 32)) sb
    else addError (Some "argument out of range: number"%string) sb.

(** [EmitPushInteger]: every case converts with [int64(...)], the [int64]
    case apart, which passes the number as it is. *)
Definition EmitPushInteger (num : GoValue) (sb : ScriptBuilder) : ScriptBuilder :=
  match num with
  | VInt KInt64 z => EmitPushBigInt z sb
  | VInt _ z => EmitPushBigInt (to_int64 z) sb
  | _ => addError (Some "param is not of integer type"%string) sb
  end.

Definition EmitPushBool (data : bool) (sb : ScriptBuilder) : ScriptBuilder :=
  if data then Emit PUSH1 None sb else Emit PUSH0 None sb.

Definition EmitPushBytes (data : slice byte) (sb : ScriptBuilder) : ScriptBuilder :=
  match data with
  | None => addError (Some "data is empty"%string) sb
  | Some d =>
      let l := Z.of_nat (length d) in
      if l <? 256 then
        Write d (WriteByte (to_byte l) (Emit PUSHDATA1 None sb))
      else if l <? 65536 then
        Write d (Write (UInt16ToBytes (to_uint16 l)) (Emit PUSHDATA2 None sb))
      else
        Write d (Write (UInt32ToBytes (to_uint32 l)) (Emit PUSHDATA4 None sb))
  end.

(** A Go string is its bytes; [[]byte(data)] is never nil. *)
Definition EmitPushString (data : list byte) (sb : ScriptBuilder) : ScriptBuilder :=
  EmitPushBytes (Some data) sb.

Definition EmitRaw (arg : slice byte) (sb : ScriptBuilder) : ScriptBuilder :=
  match arg with
  | Some a => Write a sb
  | None => sb
  end.

Definition EmitSysCall (api : Z) (sb : ScriptBuilder) : ScriptBuilder :=
  Emit SYSCALL (Some (UInt32ToBytes (to_uint32 api))) sb.

Definition EmitOpCodes (ops : slice byte) (sb : ScriptBuilder) : ScriptBuilder :=
  match ops with
  | None => sb
  | Some l => fold_left (fun s op => Emit op None s) l sb
  end.

Definition EmitPushSerializable (data : Serializable) (sb : ScriptBuilder) : ScriptBuilder :=
  let '(b, e) := io_ToArray data in
  EmitPushBytes b (addError e sb).

(** [CreateMap], over the function that pushes a key or a value. *)
Definition CreateMap_with (push : GoValue -> ScriptBuilder -> Result ScriptBuilder)
    (m : option (list (GoValue * GoValue))) (sb : ScriptBuilder) : Result ScriptBuilder :=
  let sb := Emit NEWMAP None sb in
  match m with
  | None => Ok sb
  | Some pairs =>
      (fix range (ps : list (GoValue * GoValue)) (sb : ScriptBuilder) : Result ScriptBuilder :=
         match ps with
         | [] => Ok sb
         | (k, v) :: ps' =>
             sb1 <- push k (Emit DUP None sb) ;;
             sb2 <- push v sb1 ;;
             range ps' (Emit SETITEM None sb2)
         end) pairs sb
  end.

Fixpoint EmitPushObject (obj : GoValue) (sb : ScriptBuilder) {struct obj} : Result ScriptBuilder :=
  match obj with
  | VCallFlags f => Ok (EmitPushBigInt (to_int64 f) sb)
  | VBool b => Ok (EmitPushBool b sb)
  | VBytes d => Ok (EmitPushBytes d sb)
  | VString s => Ok (EmitPushString s sb)
  | VBigInt n => Ok (EmitPushBigInt n sb)
  | VBigIntPtr (Some n) => Ok (EmitPushBigInt n sb)
  | VBigIntPtr None => Panic
  | VSerializable s => Ok (EmitPushSerializable s sb)
  | VInt _ _ => Ok (EmitPushInteger obj sb)
  | VParam p => EmitPushParameter p sb
  | VTypesNil => Ok (Emit PUSHNULL None sb)
  | VNilInterface | VParams _ | VMap _ | VOther =>
      Ok (addError (Some "invalid argument type"%string) sb)
  end
with EmitPushParameter (param : ContractParameter) (sb : ScriptBuilder) {struct param}
    : Result ScriptBuilder :=
  match param with
  | mkContractParameter _ VNilInterface => Ok (Emit PUSHNULL None sb)
  | mkContractParameter ty value =>
      match ty with
      | Signature | ByteArray =>
          match value with VBytes d => Ok (EmitPushBytes d sb) | _ => Panic end
      | Boolean =>
          match value with VBool b => Ok (EmitPushBool b sb) | _ => Panic end
      | Integer => EmitPushObject value sb
      | Hash160 =>
          match value with
          | VSerializable (SerUInt160 v) => Ok (EmitPushSerializable (SerUInt160 v) sb)
          | _ => Panic
          end
      | Hash256 =>
          match value with
          | VSerializable (SerUInt256 v) => Ok (EmitPushSerializable (SerUInt256 v) sb)
          | _ => Panic
          end
      | PublicKey =>
          match value with VBytes d => Ok (EmitPushBytes d sb) | _ => Panic end
      | String =>
          match value with VString s => Ok (EmitPushString s sb) | _ => Panic end
      | Array =>
          match value with
          | VParams a =>
              sb' <- for_rev EmitPushParameter a sb ;;
              Ok (Emit PACK None (EmitPushInteger (VInt KInt (Z.of_nat (length a))) sb'))
          | _ => Panic
          end
      | Map =>
          match value with
          | VMap pairs => CreateMap_with EmitPushObject pairs sb
          | _ => Panic
          end
      | OtherParameterType => Ok (addError (Some "invalid param type"%string) sb)
      end
  end.

Definition CreateMap (m : option (list (GoValue * GoValue))) (sb : ScriptBuilder)
    : Result ScriptBuilder :=
  CreateMap_with EmitPushObject m sb.

Definition CreateArray (list : slice GoValue) (sb : ScriptBuilder) : Result ScriptBuilder :=
  match list with
  | None => Ok (Emit NEWARRAY0 None sb)
  | Some l =>
      if (length l =? 0)%nat then Ok (Emit NEWARRAY0 None sb)
      else
        sb' <- for_down EmitPushObject l (length l) sb ;;
        Ok (Emit PACK None (EmitPushInteger (VInt KInt (Z.of_nat (length l))) sb'))
  end.

(** The target of a call is a non-nil [*helper.UInt160], held as its bytes. *)
Definition UInt160 : Type := list byte.

Definition EmitDynamicCall (scriptHash : UInt160) (operation : list byte)
    (sb : ScriptBuilder) : Result ScriptBuilder :=
  sb1 <- EmitPushObject (VCallFlags All) (Emit NEWARRAY0 None sb) ;;
  Ok (EmitSysCall Call_ToInteropMethodHash
        (EmitPushSerializable (SerUInt160 scriptHash) (EmitPushString operation sb1))).

Definition EmitDynamicCallParam (scriptHash : UInt160) (operation : list byte)
    (args : slice ContractParameter) (sb : ScriptBuilder) : Result ScriptBuilder :=
  let a := match args with Some l => l | None => [] end in
  sb0 <- for_down EmitPushParameter a (len args) sb ;;
  sb1 <- EmitPushObject (VCallFlags All)
           (Emit PACK None (EmitPushInteger (VInt KInt (Z.of_nat (len args))) sb0)) ;;
  Ok (EmitSysCall Call_ToInteropMethodHash
        (EmitPushSerializable (SerUInt160 scriptHash) (EmitPushString operation sb1))).

Definition EmitDynamicCallObj (scriptHash : UInt160) (operation : list byte)
    (objs : slice GoValue) (sb : ScriptBuilder) : Result ScriptBuilder :=
  let a := match objs with Some l => l | None => [] end in
  sb0 <- for_down EmitPushObject a (len objs) sb ;;
  sb1 <- EmitPushObject (VCallFlags All)
           (Emit PACK None (EmitPushInteger (VInt KInt (Z.of_nat (len objs))) sb0)) ;;
  Ok (EmitSysCall Call_ToInteropMethodHash
        (EmitPushSerializable (SerUInt160 scriptHash) (EmitPushString operation sb1))).

Definition EmitSysCallWithParam (method : Z) (args : slice GoValue) (sb : ScriptBuilder)
    : Result ScriptBuilder :=
  sb' <- match args with
         | Some l => for_down EmitPushObject l (length l) sb
         | None => Ok sb
         end ;;
  Ok (EmitSysCall method sb').

(** [MakeScript]: a fresh builder, one of the two call forms, [ToArray]. *)
Definition MakeScript (scriptHash : UInt160) (operation : list byte) (objs : slice GoValue)
    : Result (list byte * option string) :=
  let sb := NewScriptBuilder in
  sb' <- (if match objs with Some _ => true | None => false end && (0 <? len objs)%nat
          then EmitDynamicCallObj scriptHash operation objs sb
          else EmitDynamicCall scriptHash operation sb) ;;
  Ok (ToArray sb').

End Builder.

(** ** Encodings in the words of the specification *)

Section Encodings.

Context {opcodes : OpCodes}.

(** The width classes of the push-integer opcodes, in bytes. *)
Definition width_classes : list nat := [1; 2; 4; 8; 16; 32]%nat.

(** The push-integer opcode tagged with a width class. *)
Definition PUSHINT_of_width (w : nat) : byte :=
  match w with
  | 1%nat => PUSHINT8
  | 2%nat => PUSHINT16
  | 4%nat => PUSHINT32
  | 8%nat => PUSHINT64
  | 16%nat => PUSHINT128
  | _ => PUSHINT256
  end.

(** Section 4.2, push byte string: "1 byte if length < 256, 2 bytes if
    length < 65536, else 4 bytes", "the corresponding push-data opcode, the
    length encoded little-endian at the chosen width, then the raw bytes". *)
Definition prefix_width (l : Z) : nat :=
  if l <? 256 then 1%nat else if l <? 65536 then 2%nat else 4%nat.

Definition PUSHDATA_of_width (w : nat) : byte :=
  match w with
  | 1%nat => PUSHDATA1
  | 2%nat => PUSHDATA2
  | _ => PUSHDATA4
  end.

Definition push_data_bytes (d : list byte) : list byte :=
  let l := Z.of_nat (length d) in
  let w := prefix_width l in
  PUSHDATA_of_width w :: le_bytes w l ++ d.

(** The push of a call-flags byte [f]: a small-integer opcode up to 16, the
    one-byte class up to 127, the two-byte class above. *)
Definition push_flags_bytes (f : Z) : list byte :=
  if f <=? 16 then [PUSH0 + f]
  else if f <=? 127 then [PUSHINT8; f]
  else [PUSHINT16; f; 0].

End Encodings.

(** ** Sessions *)

(** The messages the builder creates. *)
Definition builder_messages : list string :=
  [ "argument out of range: invalid OpCode"%string;
    "argument out of range: number"%string;
    "param is not of integer type"%string;
    "data is empty"%string;
    "invalid param type"%string;
    "invalid argument type"%string ].


(** A call of an exported method, with its arguments. *)
Inductive EncodeCall : Type :=
| DoEmit (op : byte) (arg : slice byte)
| DoEmitCall (offset : Z)
| DoEmitJump (op : byte) (offset : Z)
| DoEmitPushBigInt (number : Z)
| DoEmitPushInteger (num : GoValue)
| DoEmitPushBool (data : bool)
| DoEmitPushBytes (data : slice byte)
| DoEmitPushString (data : list byte)
| DoEmitRaw (arg : slice byte)
| DoEmitSysCall (api : Z)
| DoCreateArray (list : slice GoValue)
| DoCreateMap (m : option (list (GoValue * GoValue)))
| DoEmitOpCodes (ops : slice byte)
| DoEmitDynamicCall (scriptHash : UInt160) (operation : list byte)
| DoEmitDynamicCallParam (scriptHash : UInt160) (operation : list byte)
    (args : slice ContractParameter)
| DoEmitDynamicCallObj (scriptHash : UInt160) (operation : list byte)
    (objs : slice GoValue)
| DoEmitPushSerializable (data : Serializable)
| DoEmitPushParameter (param : ContractParameter)
| DoEmitPushObject (obj : GoValue)
| DoEmitSysCallWithParam (method : Z) (args : slice GoValue).

Section Sessions.

Context {opcodes : OpCodes} {externals : Externals}.

Definition perform (c : EncodeCall) (sb : ScriptBuilder) : Result ScriptBuilder :=
  match c with
  | DoEmit op arg => Ok (Emit op arg sb)
  | DoEmitCall offset => Ok (EmitCall offset sb)
  | DoEmitJump op offset => Ok (EmitJump op offset sb)
  | DoEmitPushBigInt number => Ok (EmitPushBigInt number sb)
  | DoEmitPushInteger num => Ok (EmitPushInteger num sb)
  | DoEmitPushBool data => Ok (EmitPushBool data sb)
  | DoEmitPushBytes data => Ok (EmitPushBytes data sb)
  | DoEmitPushString data => Ok (EmitPushString data sb)
  | DoEmitRaw arg => Ok (EmitRaw arg sb)
  | DoEmitSysCall api => Ok (EmitSysCall api sb)
  | DoCreateArray list => CreateArray list sb
  | DoCreateMap m => CreateMap m sb
  | DoEmitOpCodes ops => Ok (EmitOpCodes ops sb)
  | DoEmitDynamicCall scriptHash operation => EmitDynamicCall scriptHash operation sb
  | DoEmitDynamicCallParam scriptHash operation args =>
      EmitDynamicCallParam scriptHash operation args sb
  | DoEmitDynamicCallObj scriptHash operation objs =>
      EmitDynamicCallObj scriptHash operation objs sb
  | DoEmitPushSerializable data => Ok (EmitPushSerializable data sb)
  | DoEmitPushParameter param => EmitPushParameter param sb
  | DoEmitPushObject obj => EmitPushObject obj sb
  | DoEmitSysCallWithParam method args => EmitSysCallWithParam method args sb
  end.


End Sessions.


(** Pushing the elements of [xs] from first to last, a panic ending it. *)
Definition push_each {A : Type} (push : A -> ScriptBuilder -> Result ScriptBuilder)
    (xs : list A) (sb : ScriptBuilder) : Result ScriptBuilder :=
  fold_left (fun r x => s <- r ;; push x s) xs (Ok sb).

(** What a call adds to a builder: bytes at the end of the buffer, errors at
    the end of the list. *)
Definition extend (sb out : ScriptBuilder) : ScriptBuilder :=
  mkScriptBuilder (buff sb ++ buff out) (errs sb ++ errs out).

Definition known (e : string) : Prop := In e builder_messages.

(** A method that cannot panic appends: on every builder it adds what it
    adds to a fresh one.  It is clean when the errors it adds are messages of
    the builder. *)
Definition appends (g : ScriptBuilder -> ScriptBuilder) : Prop :=
  forall sb, g sb = extend sb (g NewScriptBuilder).

Definition clean (g : ScriptBuilder -> ScriptBuilder) : Prop :=
  appends g /\ Forall known (errs (g NewScriptBuilder)).

(** A method is regular when it panics on every builder or adds the same
    bytes and the same errors, all of them the builder's own messages, to
    every builder. *)
Definition regular (f : ScriptBuilder -> Result ScriptBuilder) : Prop :=
  (forall sb, f sb = Panic) \/
  exists out, Forall known (errs out) /\ forall sb, f sb = Ok (extend sb out).

(** The dynamic type the branch of [EmitPushParameter] for a tag asserts
    (for [Integer], which asserts nothing: the integer types). *)
Definition asserted (ty : ContractParameterType) (value : GoValue) : bool :=
  match ty, value with
  | (Signature | ByteArray | PublicKey), VBytes _ => true
  | Boolean, VBool _ => true
  | Integer, (VInt _ _ | VBigInt _ | VBigIntPtr _) => true
  | Hash160, VSerializable (SerUInt160 _) => true
  | Hash256, VSerializable (SerUInt256 _) => true
  | String, VString _ => true
  | Array, VParams _ => true
  | Map, VMap _ => true
  | _, _ => false
  end.

(** Induction on a value and on the values inside it. *)
Section GoValue_induction.

Variable P : GoValue -> Prop.
Variable Q : ContractParameter -> Prop.

Hypothesis P_atom : forall v,
  match v with VParam _ | VParams _ | VMap _ => False | _ => True end -> P v.
Hypothesis P_VParam : forall p, Q p -> P (VParam p).
Hypothesis P_VParams : forall a, Forall Q a -> P (VParams a).
Hypothesis P_VMap_nil : P (VMap None).
Hypothesis P_VMap : forall ps,
  Forall (fun kv => P (fst kv) /\ P (snd kv)) ps -> P (VMap (Some ps)).
Hypothesis Q_mk : forall ty v, P v -> Q (mkContractParameter ty v).

Fixpoint GoValue_nested_ind (v : GoValue) : P v :=
  match v as v0 return P v0 with
  | VParam p => P_VParam p (ContractParameter_nested_ind p)
  | VParams a =>
      P_VParams a
        ((fix all (l : list ContractParameter) : Forall Q l :=
            match l with
            | [] => Forall_nil Q
            | p :: l' => Forall_cons p (ContractParameter_nested_ind p) (all l')
            end) a)
  | VMap None => P_VMap_nil
  | VMap (Some ps) =>
      P_VMap ps
        ((fix all (l : list (GoValue * GoValue))
            : Forall (fun kv => P (fst kv) /\ P (snd kv)) l :=
            match l with
            | [] => Forall_nil _
            | (k, x) :: l' =>
                Forall_cons (k, x)
                  (conj (GoValue_nested_ind k) (GoValue_nested_ind x)) (all l')
            end) ps)
  | VNilInterface => P_atom VNilInterface I
  | VCallFlags f => P_atom (VCallFlags f) I
  | VBool b => P_atom (VBool b) I
  | VBytes d => P_atom (VBytes d) I
  | VString s => P_atom (VString s) I
  | VBigInt n => P_atom (VBigInt n) I
  | VBigIntPtr p => P_atom (VBigIntPtr p) I
  | VSerializable s => P_atom (VSerializable s) I
  | VInt k z => P_atom (VInt k z) I
  | VTypesNil => P_atom VTypesNil I
  | VOther => P_atom VOther I
  end
with ContractParameter_nested_ind (p : ContractParameter) : Q p :=
  match p as p0 return Q p0 with
  | mkContractParameter ty v => Q_mk ty v (GoValue_nested_ind v)
  end.

End GoValue_induction.

(** ** An instance: the opcodes of the Neo N3 virtual machine *)

Definition neo_opcodes : OpCodes := {|
  PUSHINT8 := 0x00; PUSHINT16 := 0x01; PUSHINT32 := 0x02;
  PUSHINT64 := 0x03; PUSHINT128 := 0x04; PUSHINT256 := 0x05;
  PUSHNULL := 0x0B;
  PUSHDATA1 := 0x0C; PUSHDATA2 := 0x0D; PUSHDATA4 := 0x0E;
  PUSHM1 := 0x0F; PUSH0 := 0x10; PUSH1 := 0x11;
  JMP := 0x22; JMPLE_L := 0x33;
  CALL := 0x34; CALL_L := 0x35;
  SYSCALL := 0x41;
  DUP := 0x4A;
  NEWARRAY0 := 0xC2; PACK := 0xC0; NEWMAP := 0xC8; SETITEM := 0xD0
|}.

(** All four permission bits, the hash of [System.Contract.Call], and a
    format function that returns a format without directives as it is. *)
Definition neo_externals : Externals := {|
  All := 0x0F;
  Call_ToInteropMethodHash := 0x525b7d62;
  Errorf := fun format => format
|}.

(** ** The common end of the dynamic calls, and the values that cannot panic *)

Section CallTail.

Context {opcodes : OpCodes} {externals : Externals}.

(** The four statements that end [EmitDynamicCall], [EmitDynamicCallParam]
    and [EmitDynamicCallObj]: the pushes of [All], of the operation name and
    of the target, and the system call. *)
Definition invoke_tail (scriptHash : UInt160) (operation : list byte)
    (sb : ScriptBuilder) : Result ScriptBuilder :=
  sb1 <- EmitPushObject (VCallFlags All) sb ;;
  Ok (EmitSysCall Call_ToInteropMethodHash
        (EmitPushSerializable (SerUInt160 scriptHash) (EmitPushString operation sb1))).

End CallTail.


(** * Properties *)

(** ** Little-endian strings *)

Lemma pow256_S (k : nat) : 256 ^ Z.of_nat (S k) = 256 * 256 ^ Z.of_nat k.
Proof. rewrite Nat2Z.inj_succ, Z.pow_succ_r by lia. reflexivity. Qed.

Lemma pow256_pos (k : nat) : 0 < 256 ^ Z.of_nat k.
Proof. apply Z.pow_pos_nonneg; lia. Qed.

Lemma length_le_bytes (w : nat) (x : Z) : length (le_bytes w x) = w.
Proof. revert x; induction w; intros; simpl; [reflexivity | now rewrite IHw]. Qed.

Lemma le_value_le_bytes (w : nat) (x : Z) :
  le_value (le_bytes w x) = x mod 256 ^ Z.of_nat w.
Proof.
  revert x; induction w as [|w IH]; intros x.
  - simpl. now rewrite Z.mod_1_r.
  - cbn [le_bytes le_value]. rewrite IH, pow256_S.
    pose proof (pow256_pos w).
    rewrite Z.rem_mul_r by lia. lia.
Qed.

Lemma le_bytes_mod (w : nat) (x : Z) :
  le_bytes w (x mod 256 ^ Z.of_nat w) = le_bytes w x.
Proof.
  revert x; induction w as [|w IH]; intros x; [reflexivity|].
  cbn [le_bytes]. rewrite pow256_S. pose proof (pow256_pos w).
  f_equal.
  - rewrite Z.rem_mul_r by lia.
    rewrite (Z.mul_comm 256), Z.mod_add by lia. apply Z.mod_mod. lia.
  - rewrite <- (IH (x / 256)). f_equal.
    rewrite Z.rem_mul_r by lia.
    rewrite (Z.mul_comm 256), Z.div_add by lia.
    rewrite (Z.div_small (x mod 256)) by (apply Z.mod_pos_bound; lia).
    rewrite Z.add_0_l. reflexivity.
Qed.

Lemma le_bytes_range (w : nat) (x : Z) : Forall is_byte (le_bytes w x).
Proof.
  revert x; induction w; intros; simpl; constructor; auto.
  unfold is_byte. apply Z.mod_pos_bound. lia.
Qed.

Lemma le_signed_le_bytes (k : nat) (n : Z) :
  (1 <= k)%nat -> fits k n -> le_signed (le_bytes k n) = n.
Proof.
  intros Hk [Hlo Hhi]. unfold le_signed.
  rewrite le_value_le_bytes, length_le_bytes.
  pose proof (pow256_pos k) as Hp.
  assert (E : 2 ^ (8 * Z.of_nat k) = 256 ^ Z.of_nat k).
  { change 256 with (2 ^ 8). rewrite <- Z.pow_mul_r by lia. reflexivity. }
  assert (E' : 2 * 2 ^ (8 * Z.of_nat k - 1) = 256 ^ Z.of_nat k).
  { rewrite <- E. rewrite <- Z.pow_succ_r by lia. f_equal. lia. }
  rewrite E.
  destruct (Z_lt_le_dec n 0) as [Hn|Hn].
  - assert (Hm : n mod 256 ^ Z.of_nat k = n + 256 ^ Z.of_nat k).
    { symmetry. apply Z.mod_unique with (q := -1); lia. }
    rewrite Hm.
    destruct (Z.ltb_spec (n + 256 ^ Z.of_nat k) (2 ^ (8 * Z.of_nat k - 1))); lia.
  - rewrite Z.mod_small by lia.
    destruct (Z.ltb_spec n (2 ^ (8 * Z.of_nat k - 1))); lia.
Qed.

Lemma fits_div (k : nat) (n : Z) : fits (S (S k)) n -> fits (S k) (n / 256).
Proof.
  unfold fits. rewrite (pow256_S (S k)), (pow256_S k).
  pose proof (pow256_pos k). intros [Hlo Hhi].
  pose proof (Z.div_mod n 256 ltac:(lia)).
  pose proof (Z.mod_pos_bound n 256 ltac:(lia)). lia.
Qed.

Lemma fits_mono (k w : nat) (n : Z) : (k <= w)%nat -> fits k n -> fits w n.
Proof.
  unfold fits. intros Hkw [Hlo Hhi].
  assert (256 ^ Z.of_nat k <= 256 ^ Z.of_nat w) by (apply Z.pow_le_mono_r; lia).
  lia.
Qed.

Lemma le_bytes_minus1 (j : nat) : le_bytes j (-1) = repeat 255 j.
Proof. induction j; [reflexivity|]. cbn [le_bytes repeat]. rewrite <- IHj. reflexivity. Qed.

Lemma le_bytes_zero (j : nat) : le_bytes j 0 = repeat 0 j.
Proof. induction j; [reflexivity|]. cbn [le_bytes repeat]. rewrite <- IHj. reflexivity. Qed.

Lemma le_bytes_extend (k j : nat) (n : Z) :
  (1 <= k)%nat -> fits k n ->
  le_bytes (k + j) n = le_bytes k n ++ repeat (ext_byte n) j.
Proof.
  revert n. induction k as [|k IH]; intros n Hk Hf; [lia|].
  cbn [Nat.add le_bytes app]. f_equal.
  destruct k as [|k].
  - cbn [Nat.add le_bytes app]. unfold fits in Hf. change (256 ^ Z.of_nat 1) with 256 in Hf.
    unfold ext_byte. destruct (Z.ltb_spec n 0).
    + replace (n / 256) with (-1). apply le_bytes_minus1.
      apply Z.div_unique with (r := n + 256); lia.
    + rewrite Z.div_small by lia. apply le_bytes_zero.
  - rewrite IH by (try lia; now apply fits_div). f_equal. f_equal.
    unfold ext_byte.
    pose proof (Z.div_mod n 256 ltac:(lia)).
    pose proof (Z.mod_pos_bound n 256 ltac:(lia)).
    destruct (Z.ltb_spec (n / 256) 0), (Z.ltb_spec n 0); try reflexivity; lia.
Qed.

Lemma last_le_bytes (k : nat) (n : Z) :
  (1 <= k)%nat -> fits k n ->
  (128 <=? last (le_bytes k n) 0) = (n <? 0).
Proof.
  revert n. induction k as [|k IH]; intros n Hk Hf; [lia|].
  destruct k as [|k].
  - cbn [le_bytes last]. unfold fits in Hf. change (256 ^ Z.of_nat 1) with 256 in Hf.
    destruct (Z.ltb_spec n 0).
    + replace (n mod 256) with (n + 256).
      * apply Z.leb_le. lia.
      * apply Z.mod_unique with (q := -1); lia.
    + rewrite Z.mod_small by lia. apply Z.leb_gt. lia.
  - change (le_bytes (S (S k)) n) with (n mod 256 :: le_bytes (S k) (n / 256)).
    assert (Hne : le_bytes (S k) (n / 256) <> []) by (cbn [le_bytes]; discriminate).
    destruct (le_bytes (S k) (n / 256)) as [|b l] eqn:E; [congruence|].
    change (last (n mod 256 :: b :: l) 0) with (last (b :: l) 0).
    rewrite <- E, IH by (try lia; now apply fits_div).
    pose proof (Z.div_mod n 256 ltac:(lia)).
    pose proof (Z.mod_pos_bound n 256 ltac:(lia)).
    destruct (Z.ltb_spec (n / 256) 0), (Z.ltb_spec n 0); try reflexivity; lia.
Qed.

Lemma magnitude_nonneg (n : Z) : 0 <= magnitude n.
Proof. unfold magnitude. destruct (Z.ltb_spec n 0); lia. Qed.

Lemma pow256_as_2 (k : nat) : (1 <= k)%nat ->
  256 ^ Z.of_nat k = 2 * 2 ^ (8 * Z.of_nat k - 1).
Proof.
  intros Hk. change 256 with (2 ^ 8). rewrite <- Z.pow_mul_r by lia.
  rewrite <- Z.pow_succ_r by lia. f_equal. lia.
Qed.

Lemma fits_magnitude (k : nat) (n : Z) : (1 <= k)%nat ->
  fits k n <-> magnitude n < 2 ^ (8 * Z.of_nat k - 1).
Proof.
  intros Hk. unfold fits, magnitude. rewrite pow256_as_2 by assumption.
  assert (0 < 2 ^ (8 * Z.of_nat k - 1)) by (apply Z.pow_pos_nonneg; lia).
  destruct (Z.ltb_spec n 0); lia.
Qed.

Lemma min_len_pos (n : Z) : (1 <= min_len n)%nat.
Proof.
  unfold min_len. fold (magnitude n).
  pose proof (Z.log2_nonneg (magnitude n)).
  assert (1 <= (Z.log2 (magnitude n) + 9) / 8) by (apply Z.div_le_lower_bound; lia).
  lia.
Qed.

Lemma min_len_fits (n : Z) : fits (min_len n) n.
Proof.
  apply fits_magnitude; [apply min_len_pos|].
  pose proof (min_len_pos n) as Hp. unfold min_len in *. fold (magnitude n) in *.
  pose proof (magnitude_nonneg n) as Hm.
  pose proof (Z.log2_nonneg (magnitude n)) as HL.
  set (L := Z.log2 (magnitude n)) in *.
  rewrite Z2Nat.id by (apply Z.div_pos; lia).
  pose proof (Z.div_mod (L + 9) 8 ltac:(lia)).
  pose proof (Z.mod_pos_bound (L + 9) 8 ltac:(lia)).
  destruct (Z.eq_dec (magnitude n) 0) as [E|E].
  - rewrite E. apply Z.pow_pos_nonneg; lia.
  - pose proof (Z.log2_spec (magnitude n) ltac:(lia)) as [_ Hhi]. fold L in Hhi.
    eapply Z.lt_le_trans; [exact Hhi|]. apply Z.pow_le_mono_r; lia.
Qed.

Lemma min_len_least (k : nat) (n : Z) :
  (1 <= k)%nat -> fits k n -> (min_len n <= k)%nat.
Proof.
  intros Hk Hf. apply fits_magnitude in Hf; [|assumption].
  unfold min_len. fold (magnitude n).
  pose proof (magnitude_nonneg n) as Hm.
  pose proof (Z.log2_nonneg (magnitude n)) as HL.
  assert (Z.log2 (magnitude n) < 8 * Z.of_nat k - 1).
  { destruct (Z.eq_dec (magnitude n) 0) as [E|E].
    - rewrite E. change (Z.log2 0) with 0. lia.
    - apply Z.log2_lt_pow2; lia. }
  assert ((Z.log2 (magnitude n) + 9) / 8 < Z.of_nat k + 1)
    by (apply Z.div_lt_upper_bound; lia).
  lia.
Qed.

Lemma BigIntToNeoBytes_length (n : Z) : length (BigIntToNeoBytes n) = min_len n.
Proof. apply length_le_bytes. Qed.

Lemma BigIntToNeoBytes_value (n : Z) : le_signed (BigIntToNeoBytes n) = n.
Proof. apply le_signed_le_bytes; [apply min_len_pos | apply min_len_fits]. Qed.

Lemma BigIntToNeoBytes_sign (n : Z) : sign_byte (BigIntToNeoBytes n) = ext_byte n.
Proof.
  unfold sign_byte, BigIntToNeoBytes, ext_byte.
  rewrite last_le_bytes by (apply min_len_pos || apply min_len_fits). reflexivity.
Qed.

Lemma PadRight_BigIntToNeoBytes (n : Z) (w : nat) :
  (min_len n <= w)%nat ->
  PadRight (BigIntToNeoBytes n) w
  = BigIntToNeoBytes n ++ repeat (ext_byte n) (w - min_len n)
  /\ PadRight (BigIntToNeoBytes n) w = le_bytes w n.
Proof.
  intros Hw. unfold PadRight. rewrite BigIntToNeoBytes_length.
  assert (E : le_bytes w n = BigIntToNeoBytes n ++ repeat (ext_byte n) (w - min_len n)).
  { replace w with (min_len n + (w - min_len n))%nat at 1 by lia.
    apply le_bytes_extend; [apply min_len_pos | apply min_len_fits]. }
  destruct (Nat.leb_spec w (min_len n)).
  - assert (w = min_len n) by lia. subst w.
    rewrite firstn_all2 by (rewrite BigIntToNeoBytes_length; lia).
    rewrite Nat.sub_diag. cbn [repeat]. rewrite app_nil_r. split; reflexivity.
  - rewrite BigIntToNeoBytes_sign. auto.
Qed.

(** ** Integer pushes *)

Lemma BigIntToNeoBytes_bytes (n : Z) : Forall is_byte (BigIntToNeoBytes n).
Proof. apply le_bytes_range. Qed.

Lemma le_value_range (bs : list byte) :
  Forall is_byte bs -> 0 <= le_value bs < 256 ^ Z.of_nat (length bs).
Proof.
  induction 1 as [|b bs Hb _ IH]; cbn [le_value length].
  - change (256 ^ Z.of_nat 0) with 1. lia.
  - rewrite pow256_S. unfold is_byte in Hb. lia.
Qed.

Lemma le_signed_fits (bs : list byte) :
  bs <> [] -> Forall is_byte bs -> fits (length bs) (le_signed bs).
Proof.
  intros Hne Hb. pose proof (le_value_range bs Hb) as Hu.
  assert (Hk : (1 <= length bs)%nat) by (destruct bs; [congruence | cbn; lia]).
  unfold fits, le_signed.
  replace (2 ^ (8 * Z.of_nat (length bs))) with (256 ^ Z.of_nat (length bs))
    by (change 256 with (2 ^ 8); rewrite <- Z.pow_mul_r by lia; reflexivity).
  pose proof (pow256_as_2 (length bs) Hk) as E.
  destruct (Z.ltb_spec (le_value bs) (2 ^ (8 * Z.of_nat (length bs) - 1))); lia.
Qed.

(** No shorter byte string denotes the same number. *)
Lemma BigIntToNeoBytes_minimal (n : Z) (bs : list byte) :
  bs <> [] -> Forall is_byte bs -> le_signed bs = n ->
  (length (BigIntToNeoBytes n) <= length bs)%nat.
Proof.
  intros Hne Hb <-. rewrite BigIntToNeoBytes_length.
  apply min_len_least; [destruct bs; [congruence | cbn; lia]|].
  now apply le_signed_fits.
Qed.

Section IntegerPushes.
Context {opcodes : OpCodes}.

Lemma Emit_Some (op : byte) (a : list byte) (sb : ScriptBuilder) :
  Emit op (Some a) sb = mkScriptBuilder (buff sb ++ op :: a) (errs sb).
Proof.
  unfold Emit, Write, WriteByte, addError. cbn [buff errs].
  now rewrite <- app_assoc.
Qed.

Lemma Emit_None (op : byte) (sb : ScriptBuilder) :
  Emit op None sb = mkScriptBuilder (buff sb ++ [op]) (errs sb).
Proof. reflexivity. Qed.

Lemma to_int64_small (x : Z) : - 2 ^ 63 <= x < 2 ^ 63 -> to_int64 x = x.
Proof.
  unfold to_int64. change (2 ^ 64) with 18446744073709551616.
  change (2 ^ 63) with 9223372036854775808.
  intros H. rewrite Z.mod_small; lia.
Qed.

Lemma payload_le_bytes (n : Z) (w : nat) :
  (min_len n <= w)%nat ->
  let payload := BigIntToNeoBytes n ++ repeat (ext_byte n) (w - min_len n) in
  payload = le_bytes w n /\ length payload = w /\ le_signed payload = n.
Proof.
  intros Hw payload.
  assert (E : payload = le_bytes w n).
  { unfold payload. destruct (PadRight_BigIntToNeoBytes n w Hw) as [E1 E2]. congruence. }
  rewrite E. split; [reflexivity|]. split; [apply length_le_bytes|].
  apply le_signed_le_bytes.
  - pose proof (min_len_pos n). lia.
  - apply fits_mono with (k := min_len n); [assumption | apply min_len_fits].
Qed.

(** C5.  For every integer [v] in [-1, 16], [EmitPushBigInt] appends exactly
    one byte and records no error.  The byte is the base opcode of the
    reserved small-integer range, the opcode [PUSHM1] of -1, plus [v + 1];
    the range is contiguous, [PUSH0] follows [PUSHM1], and it ends within a
    byte. *)
Theorem EmitPushBigInt_small (v : Z) (sb : ScriptBuilder) :
  PUSH0 = PUSHM1 + 1 -> 0 <= PUSHM1 -> PUSHM1 + 17 <= 255 ->
  -1 <= v <= 16 ->
  EmitPushBigInt v sb = mkScriptBuilder (buff sb ++ [PUSHM1 + (v + 1)]) (errs sb).
Proof.
  intros H0 Hlo Hhi Hv. unfold EmitPushBigInt.
  replace ((-1 <=? v) && (v <=? 16)) with true
    by (symmetry; apply andb_true_iff; split; apply Z.leb_le; lia).
  rewrite Emit_None.
  rewrite to_int64_small by (change (2 ^ 63) with 9223372036854775808; lia).
  do 2 f_equal. unfold to_byte.
  rewrite Zplus_mod_idemp_r, Z.mod_small by lia. f_equal. lia.
Qed.

Lemma EmitPushBigInt_class (n : Z) (sb : ScriptBuilder) (w : nat) :
  (n < -1 \/ 16 < n) -> In w width_classes -> (min_len n <= w)%nat ->
  (forall w', In w' width_classes -> (min_len n <= w')%nat -> (w <= w')%nat) ->
  EmitPushBigInt n sb
  = mkScriptBuilder
      (buff sb ++ PUSHINT_of_width w
                   :: BigIntToNeoBytes n ++ repeat (ext_byte n) (w - min_len n))
      (errs sb).
Proof.
  intros Hn Hin Hle Hmin. unfold EmitPushBigInt.
  replace ((-1 <=? n) && (n <=? 16)) with false
    by (symmetry; apply andb_false_iff;
        destruct Hn; [left; apply Z.leb_gt | right; apply Z.leb_gt]; lia).
  cbv zeta. rewrite BigIntToNeoBytes_length.
  pose proof (min_len_pos n) as Hpos.
  assert (H1 := Hmin 1%nat). assert (H2 := Hmin 2%nat). assert (H4 := Hmin 4%nat).
  assert (H8 := Hmin 8%nat). assert (H16 := Hmin 16%nat). assert (H32 := Hmin 32%nat).
  unfold width_classes in *. cbn [In] in *.
  destruct (Nat.eqb_spec (min_len n) 1).
  { assert (w = 1%nat) by lia. subst w. rewrite Emit_Some, e.
    cbn [Nat.sub repeat PUSHINT_of_width]. now rewrite app_nil_r. }
  destruct (Nat.eqb_spec (min_len n) 2).
  { assert (w = 2%nat) by lia. subst w. rewrite Emit_Some, e.
    cbn [Nat.sub repeat PUSHINT_of_width]. now rewrite app_nil_r. }
  destruct (Nat.leb_spec (min_len n) 4).
  { assert (w = 4%nat) by lia. subst w. rewrite Emit_Some.
    now rewrite (proj1 (PadRight_BigIntToNeoBytes n 4 ltac:(lia))). }
  destruct (Nat.leb_spec (min_len n) 8).
  { assert (w = 8%nat) by lia. subst w. rewrite Emit_Some.
    now rewrite (proj1 (PadRight_BigIntToNeoBytes n 8 ltac:(lia))). }
  destruct (Nat.leb_spec (min_len n) 16).
  { assert (w = 16%nat) by lia. subst w. rewrite Emit_Some.
    now rewrite (proj1 (PadRight_BigIntToNeoBytes n 16 ltac:(lia))). }
  destruct (Nat.leb_spec (min_len n) 32).
  { assert (w = 32%nat) by lia. subst w. rewrite Emit_Some.
    now rewrite (proj1 (PadRight_BigIntToNeoBytes n 32 ltac:(lia))). }
  exfalso. lia.
Qed.

Lemma least_width_class (l : nat) :
  (1 <= l <= 32)%nat ->
  exists w, In w width_classes /\ (l <= w)%nat /\
            forall w', In w' width_classes -> (l <= w')%nat -> (w <= w')%nat.
Proof.
  intros Hl. unfold width_classes.
  assert (C : (l <= 1 \/ l = 2 \/ 3 <= l <= 4 \/ 5 <= l <= 8
               \/ 9 <= l <= 16 \/ 17 <= l <= 32)%nat) by lia.
  destruct C as [C|[C|[C|[C|[C|C]]]]];
    [ exists 1%nat | exists 2%nat | exists 4%nat
    | exists 8%nat | exists 16%nat | exists 32%nat ];
    (split; [cbn [In]; tauto | split; [lia | cbn [In]; intros w' Hw' Hl'; lia]]).
Qed.

Ltac push_int_example n w :=
  match goal with
  | |- EmitPushBigInt _ ?sb = _ =>
      rewrite (EmitPushBigInt_class n sb w);
      [ reflexivity
      | lia
      | cbn [In width_classes]; tauto
      | apply Nat.leb_le; reflexivity
      | intros w' _ Hl'; vm_compute in Hl'; exact Hl' ]
  end.

(** C1.  For every number outside [-1, 16] whose minimal two's-complement
    little-endian form has at most 32 bytes, [EmitPushBigInt] appends the
    push-integer opcode of the least width class [w] in {1, 2, 4, 8, 16, 32}
    that holds the form, then the form padded on its high end to [w] bytes
    with 0x00 for a non-negative and 0xFF for a negative number; the payload
    has [w] bytes and still denotes the number; no error is recorded.  127
    takes the 1-byte class with payload [0x7F]; 128, 255 and -129 take the
    2-byte class. *)
Theorem EmitPushBigInt_width_class :
  (forall (number : Z) (sb : ScriptBuilder),
     (number < -1 \/ 16 < number) ->
     (length (BigIntToNeoBytes number) <= 32)%nat ->
     exists w : nat,
       In w width_classes /\
       (length (BigIntToNeoBytes number) <= w)%nat /\
       (forall w', In w' width_classes ->
                   (length (BigIntToNeoBytes number) <= w')%nat -> (w <= w')%nat) /\
       let payload :=
         BigIntToNeoBytes number
         ++ repeat (if number <? 0 then 255 else 0) (w - length (BigIntToNeoBytes number)) in
       EmitPushBigInt number sb
       = mkScriptBuilder (buff sb ++ PUSHINT_of_width w :: payload) (errs sb) /\
       length payload = w /\
       le_signed payload = number) /\
  (forall sb, EmitPushBigInt 127 sb
              = mkScriptBuilder (buff sb ++ [PUSHINT8; 0x7F]) (errs sb)) /\
  (forall sb, EmitPushBigInt 128 sb
              = mkScriptBuilder (buff sb ++ [PUSHINT16; 0x80; 0x00]) (errs sb)) /\
  (forall sb, EmitPushBigInt 255 sb
              = mkScriptBuilder (buff sb ++ [PUSHINT16; 0xFF; 0x00]) (errs sb)) /\
  (forall sb, EmitPushBigInt (-129) sb
              = mkScriptBuilder (buff sb ++ [PUSHINT16; 0x7F; 0xFF]) (errs sb)).
Proof.
  split; [|repeat split; intros sb;
            [ push_int_example 127 1%nat | push_int_example 128 2%nat
            | push_int_example 255 2%nat | push_int_example (-129) 2%nat ]].
  intros number sb Hn Hlen. rewrite BigIntToNeoBytes_length in *.
  destruct (least_width_class (min_len number)) as (w & Hin & Hle & Hmin).
  { pose proof (min_len_pos number). lia. }
  exists w. repeat (split; [assumption|]).
  fold (ext_byte number).
  destruct (payload_le_bytes number w Hle) as (_ & Hl & Hv).
  cbv zeta. split; [|split; assumption].
  now apply EmitPushBigInt_class.
Qed.

End IntegerPushes.

(** ** Data pushes and jumps *)

Section DataPushes.
Context {opcodes : OpCodes}.

Lemma le_value_small (w : nat) (x : Z) :
  0 <= x < 256 ^ Z.of_nat w -> le_value (le_bytes w x) = x.
Proof. intros H. rewrite le_value_le_bytes. now apply Z.mod_small. Qed.

Lemma EmitPushBytes_Some (d : list byte) (sb : ScriptBuilder) :
  EmitPushBytes (Some d) sb
  = mkScriptBuilder (buff sb ++ push_data_bytes d) (errs sb).
Proof.
  unfold EmitPushBytes, push_data_bytes, prefix_width.
  set (l := Z.of_nat (length d)).
  assert (Hl : 0 <= l) by (unfold l; lia).
  unfold UInt16ToBytes, UInt32ToBytes, to_byte, to_uint16, to_uint32.
  destruct (Z.ltb_spec l 256); [|destruct (Z.ltb_spec l 65536)];
    unfold Emit, addError, Write, WriteByte;
    cbn [buff errs PUSHDATA_of_width]; f_equal;
    rewrite <- !app_assoc; cbn [app];
    change (2 ^ 16) with (256 ^ Z.of_nat 2);
    change (2 ^ 32) with (256 ^ Z.of_nat 4);
    rewrite ?le_bytes_mod; reflexivity.
Qed.

(** C6.  For every non-empty byte sequence of length [l], [EmitPushBytes]
    appends the push-data opcode of the prefix width (1 byte below 256, 2
    bytes below 65536, 4 bytes otherwise), then [l] in little-endian at that
    width, then the bytes themselves, nothing else, and records no error.
    The prefix denotes [l] for every length below 2^32. *)
Theorem EmitPushBytes_framing (d : list byte) (sb : ScriptBuilder) :
  d <> [] ->
  let l := Z.of_nat (length d) in
  EmitPushBytes (Some d) sb
  = mkScriptBuilder
      (buff sb
       ++ (if l <? 256 then PUSHDATA1 :: le_bytes 1 l
           else if l <? 65536 then PUSHDATA2 :: le_bytes 2 l
           else PUSHDATA4 :: le_bytes 4 l)
       ++ d)
      (errs sb)
  /\ (l < 2 ^ 32 ->
      le_value (le_bytes (if l <? 256 then 1 else if l <? 65536 then 2 else 4) l) = l).
Proof.
  intros _ l. split.
  - rewrite EmitPushBytes_Some. unfold push_data_bytes, prefix_width. fold l.
    destruct (l <? 256); [|destruct (l <? 65536)]; reflexivity.
  - intros Hl. assert (0 <= l) by (unfold l; lia).
    destruct (Z.ltb_spec l 256); [|destruct (Z.ltb_spec l 65536)];
      apply le_value_small.
    + change (256 ^ Z.of_nat 1) with 256. lia.
    + change (256 ^ Z.of_nat 2) with 65536. lia.
    + change (256 ^ Z.of_nat 4) with (2 ^ 32). lia.
Qed.

(** C4, as amended.  For the absent (nil) sequence [EmitPushBytes] records
    the error "data is empty" and leaves the buffer as it was; for the empty
    sequence that is not nil it appends [PUSHDATA1] and the length byte 0 and
    records no error. *)
Theorem EmitPushBytes_nil_and_empty (sb : ScriptBuilder) :
  EmitPushBytes None sb
  = mkScriptBuilder (buff sb) (errs sb ++ ["data is empty"%string])
  /\ EmitPushBytes (Some []) sb
     = mkScriptBuilder (buff sb ++ [PUSHDATA1; 0]) (errs sb).
Proof. split; [reflexivity | apply EmitPushBytes_Some]. Qed.

(** C10.  For every [uint64] argument [v], [EmitPushInteger] encodes the
    number [int64(v)]: [v] itself below 2^63, and the negative number
    [v - 2^64] from 2^63 on. *)
Theorem EmitPushInteger_uint64 (v : Z) (sb : ScriptBuilder) :
  0 <= v < 2 ^ 64 ->
  EmitPushInteger (VInt KUint64 v) sb
  = EmitPushBigInt (if v <? 2 ^ 63 then v else v - 2 ^ 64) sb.
Proof.
  intros Hv. cbn [EmitPushInteger]. f_equal. unfold to_int64.
  change (2 ^ 64) with 18446744073709551616 in *.
  change (2 ^ 63) with 9223372036854775808 in *.
  destruct (Z.ltb_spec v 9223372036854775808).
  - rewrite Z.mod_small; lia.
  - replace ((v + 9223372036854775808) mod 18446744073709551616)
      with (v - 9223372036854775808); [lia|].
    apply Z.mod_unique with (q := 1); lia.
Qed.

Lemma IntToBytes_signed (offset : Z) :
  - 2 ^ 31 <= offset < 2 ^ 31 -> le_signed (IntToBytes offset) = offset.
Proof.
  intros H. unfold IntToBytes, to_uint32.
  change (2 ^ 32) with (256 ^ Z.of_nat 4). rewrite le_bytes_mod.
  apply le_signed_le_bytes; [lia|]. unfold fits.
  change (256 ^ Z.of_nat 4) with 4294967296.
  change (2 ^ 31) with 2147483648 in H. lia.
Qed.

(** C7.  [EmitJump] records an error for every opcode outside
    [JMP, JMPLE_L].  For an even (short-form) jump opcode and an offset
    outside [-128, 127] it appends the opcode plus one and the offset in 4
    little-endian bytes; for an offset inside that range it appends the
    opcode and one offset byte; for an odd (long-form) opcode it always
    appends the opcode and the offset in 4 little-endian bytes.  The 4 bytes
    are the two's-complement form of the offset. *)
Theorem EmitJump_forms :
  (forall op offset sb,
     op < JMP \/ JMPLE_L < op ->
     errs (EmitJump op offset sb)
     = errs sb ++ ["argument out of range: invalid OpCode"%string]) /\
  (forall op offset sb,
     is_byte op -> JMP <= op <= JMPLE_L -> op mod 2 = 0 ->
     offset < -128 \/ 127 < offset ->
     EmitJump op offset sb
     = mkScriptBuilder (buff sb ++ (op + 1) :: IntToBytes offset) (errs sb)) /\
  (forall op offset sb,
     JMP <= op <= JMPLE_L -> op mod 2 = 0 ->
     -128 <= offset <= 127 ->
     EmitJump op offset sb
     = mkScriptBuilder (buff sb ++ [op; offset mod 256]) (errs sb)) /\
  (forall op offset sb,
     op mod 2 = 1 ->
     buff (EmitJump op offset sb) = buff sb ++ op :: IntToBytes offset /\
     (JMP <= op <= JMPLE_L -> errs (EmitJump op offset sb) = errs sb)) /\
  (forall offset,
     length (IntToBytes offset) = 4%nat /\
     (- 2 ^ 31 <= offset < 2 ^ 31 -> le_signed (IntToBytes offset) = offset)).
Proof.
  split; [|split; [|split; [|split]]].
  - intros op offset sb Hop. unfold EmitJump.
    replace ((op <? JMP) || (op >? JMPLE_L)) with true.
    + cbv zeta.
      destruct (_ && _); destruct (_ =? 0); rewrite Emit_Some; reflexivity.
    + symmetry. apply orb_true_iff. rewrite Z.ltb_lt, Z.gtb_gt. lia.
  - intros op offset sb Hb Hop Hev Hoff. unfold EmitJump.
    replace ((op <? JMP) || (op >? JMPLE_L)) with false
      by (symmetry; apply orb_false_iff; rewrite Z.ltb_ge, Z.gtb_ltb, Z.ltb_ge; lia).
    replace ((offset <? -128) || (offset >? 127)) with true
      by (symmetry; apply orb_true_iff; rewrite Z.ltb_lt, Z.gtb_gt; lia).
    rewrite Hev. cbn [Z.eqb andb]. cbv zeta. unfold is_byte in Hb.
    assert (Hodd : (op + 1) mod 2 = 1).
    { rewrite <- Zplus_mod_idemp_l, Hev. reflexivity. }
    assert (op <> 255) by (intros ->; discriminate Hev).
    unfold to_byte. rewrite (Z.mod_small (op + 1)) by lia.
    rewrite Hodd. cbn [Z.eqb]. apply Emit_Some.
  - intros op offset sb Hop Hev Hoff. unfold EmitJump.
    replace ((op <? JMP) || (op >? JMPLE_L)) with false
      by (symmetry; apply orb_false_iff; rewrite Z.ltb_ge, Z.gtb_ltb, Z.ltb_ge; lia).
    replace ((offset <? -128) || (offset >? 127)) with false
      by (symmetry; apply orb_false_iff; rewrite Z.ltb_ge, Z.gtb_ltb, Z.ltb_ge; lia).
    rewrite andb_false_r. cbv zeta. rewrite Hev. cbn [Z.eqb]. apply Emit_Some.
  - intros op offset sb Hodd. split.
    + unfold EmitJump.
      rewrite Hodd. cbn [Z.eqb andb]. cbv zeta. rewrite Hodd. cbn [Z.eqb].
      rewrite Emit_Some. cbn [buff].
      destruct (_ || _); reflexivity.
    + intros Hop. unfold EmitJump.
      replace ((op <? JMP) || (op >? JMPLE_L)) with false
        by (symmetry; apply orb_false_iff;
            rewrite Z.ltb_ge, Z.gtb_ltb, Z.ltb_ge; lia).
      rewrite Hodd. cbn [Z.eqb andb]. cbv zeta. rewrite Hodd. cbn [Z.eqb].
      now rewrite Emit_Some.
  - intros offset. split; [apply length_le_bytes | apply IntToBytes_signed].
Qed.

End DataPushes.

(** ** Every method appends *)

Lemma extend_assoc (a b c : ScriptBuilder) :
  extend (extend a b) c = extend a (extend b c).
Proof. unfold extend; cbn [buff errs]. now rewrite !app_assoc. Qed.

Lemma extend_New_l (a : ScriptBuilder) : extend NewScriptBuilder a = a.
Proof. destruct a; reflexivity. Qed.

Lemma extend_New_r (a : ScriptBuilder) : extend a NewScriptBuilder = a.
Proof. destruct a; unfold extend; cbn. now rewrite !app_nil_r. Qed.

Lemma appends_id : appends (fun sb => sb).
Proof. intros sb. now rewrite extend_New_r. Qed.

Lemma appends_comp (g1 g2 : ScriptBuilder -> ScriptBuilder) :
  appends g1 -> appends g2 -> appends (fun sb => g2 (g1 sb)).
Proof.
  intros H1 H2 sb. rewrite (H2 (g1 sb)), (H1 sb), extend_assoc.
  now rewrite <- (H2 (g1 NewScriptBuilder)).
Qed.

Lemma appends_WriteByte (b : byte) : appends (WriteByte b).
Proof. intros sb. unfold WriteByte, extend; cbn. now rewrite app_nil_r. Qed.

Lemma appends_Write (p : list byte) : appends (Write p).
Proof. intros sb. unfold Write, extend; cbn. now rewrite app_nil_r. Qed.

Lemma appends_addError (e : option string) : appends (addError e).
Proof.
  intros sb. destruct e; unfold addError, extend; cbn.
  - now rewrite app_nil_r.
  - destruct sb; cbn. now rewrite !app_nil_r.
Qed.

Lemma errs_extend (a b : ScriptBuilder) : errs (extend a b) = errs a ++ errs b.
Proof. reflexivity. Qed.

Lemma clean_comp (g1 g2 : ScriptBuilder -> ScriptBuilder) :
  clean g1 -> clean g2 -> clean (fun sb => g2 (g1 sb)).
Proof.
  intros [A1 K1] [A2 K2]. split; [now apply appends_comp|].
  rewrite (A2 (g1 NewScriptBuilder)), errs_extend. apply Forall_app; auto.
Qed.

Lemma clean_ext (g1 g2 : ScriptBuilder -> ScriptBuilder) :
  (forall sb, g1 sb = g2 sb) -> clean g1 -> clean g2.
Proof.
  intros E [A K]. split.
  - intros sb. rewrite <- !E. apply A.
  - now rewrite <- E.
Qed.

Lemma clean_id : clean (fun sb => sb).
Proof. split; [apply appends_id | constructor]. Qed.

Lemma clean_WriteByte (b : byte) : clean (WriteByte b).
Proof. split; [apply appends_WriteByte | constructor]. Qed.

Lemma clean_Write (p : list byte) : clean (Write p).
Proof. split; [apply appends_Write | constructor]. Qed.

Lemma clean_addError_None : clean (addError None).
Proof. split; [apply appends_addError | constructor]. Qed.

Lemma clean_addError (e : string) : known e -> clean (addError (Some e)).
Proof. intros K. split; [apply appends_addError | cbn; auto]. Qed.

Section Regularity.
Context {opcodes : OpCodes} {externals : Externals}.

Lemma clean_Emit (op : byte) (arg : slice byte) : clean (Emit op arg).
Proof.
  unfold Emit. destruct arg.
  - apply (clean_comp (WriteByte op) (fun sb => addError None (Write l (addError None sb)))).
    + apply clean_WriteByte.
    + apply (clean_comp (addError None) (fun sb => addError None (Write l sb)));
        [apply clean_addError_None|].
      apply (clean_comp (Write l) (addError None));
        [apply clean_Write | apply clean_addError_None].
  - apply (clean_comp (WriteByte op) (addError None));
      [apply clean_WriteByte | apply clean_addError_None].
Qed.

Ltac known_message := unfold known, builder_messages; cbn [In]; tauto.

Lemma clean_EmitCall (offset : Z) : clean (EmitCall offset).
Proof. unfold EmitCall. destruct (_ || _); apply clean_Emit. Qed.

Lemma clean_EmitJump (op : byte) (offset : Z) : clean (EmitJump op offset).
Proof.
  unfold EmitJump.
  set (op' := if _ && _ then _ else _).
  apply (clean_comp
           (fun sb => if (op <? JMP) || (op >? JMPLE_L)
                      then addError (Some "argument out of range: invalid OpCode"%string) sb
                      else sb)
           (fun sb => if op' mod 2 =? 0
                      then Emit op' (Some [to_byte offset]) sb
                      else Emit op' (Some (IntToBytes offset)) sb)).
  - destruct ((op <? JMP) || (op >? JMPLE_L));
      [apply clean_addError; known_message | apply clean_id].
  - destruct (op' mod 2 =? 0); apply clean_Emit.
Qed.

Lemma clean_EmitPushBigInt (number : Z) : clean (EmitPushBigInt number).
Proof.
  unfold EmitPushBigInt.
  repeat match goal with
         | |- clean (fun sb => if ?c then _ else _) => destruct c
         end; cbv zeta;
    try apply clean_Emit.
  apply clean_addError; known_message.
Qed.

Lemma clean_EmitPushInteger (num : GoValue) : clean (EmitPushInteger num).
Proof.
  destruct num; cbn [EmitPushInteger];
    try (apply clean_addError; known_message).
  destruct k; apply clean_EmitPushBigInt.
Qed.

Lemma clean_EmitPushBool (data : bool) : clean (EmitPushBool data).
Proof. destruct data; apply clean_Emit. Qed.

Lemma clean_EmitPushBytes (data : slice byte) : clean (EmitPushBytes data).
Proof.
  destruct data as [d|]; unfold EmitPushBytes.
  - cbv zeta. set (l := Z.of_nat (length d)).
    destruct (l <? 256); [|destruct (l <? 65536)].
    + apply (clean_comp (Emit PUSHDATA1 None)
               (fun sb => Write d (WriteByte (to_byte l) sb)));
        [apply clean_Emit|].
      apply (clean_comp (WriteByte (to_byte l)) (Write d));
        [apply clean_WriteByte | apply clean_Write].
    + apply (clean_comp (Emit PUSHDATA2 None)
               (fun sb => Write d (Write (UInt16ToBytes (to_uint16 l)) sb)));
        [apply clean_Emit|].
      apply (clean_comp (Write (UInt16ToBytes (to_uint16 l))) (Write d)); apply clean_Write.
    + apply (clean_comp (Emit PUSHDATA4 None)
               (fun sb => Write d (Write (UInt32ToBytes (to_uint32 l)) sb)));
        [apply clean_Emit|].
      apply (clean_comp (Write (UInt32ToBytes (to_uint32 l))) (Write d)); apply clean_Write.
  - apply clean_addError; known_message.
Qed.

Lemma clean_EmitPushString (data : list byte) : clean (EmitPushString data).
Proof. apply clean_EmitPushBytes. Qed.

Lemma clean_EmitRaw (arg : slice byte) : clean (EmitRaw arg).
Proof. destruct arg; [apply clean_Write | apply clean_id]. Qed.

Lemma clean_EmitSysCall (api : Z) : clean (EmitSysCall api).
Proof. apply clean_Emit. Qed.

Lemma clean_EmitOpCodes (ops : slice byte) : clean (EmitOpCodes ops).
Proof.
  destruct ops as [l|]; [|apply clean_id]. cbn [EmitOpCodes].
  induction l as [|op l IH]; cbn [fold_left]; [apply clean_id|].
  apply (clean_comp (Emit op None) (fun sb => fold_left (fun s o => Emit o None s) l sb));
    [apply clean_Emit | exact IH].
Qed.

Lemma clean_EmitPushSerializable (data : Serializable) : clean (EmitPushSerializable data).
Proof.
  destruct data; cbn [EmitPushSerializable io_ToArray];
    apply (clean_comp (addError None) (EmitPushBytes (Some v)));
    (apply clean_addError_None || apply clean_EmitPushBytes).
Qed.


Lemma regular_Ok (g : ScriptBuilder -> ScriptBuilder) :
  clean g -> regular (fun sb => Ok (g sb)).
Proof.
  intros [A K]. right. exists (g NewScriptBuilder). split; [exact K|].
  intros sb. now rewrite (A sb).
Qed.

Lemma regular_Panic : regular (fun _ => Panic).
Proof. now left. Qed.

Lemma regular_bind (f g : ScriptBuilder -> Result ScriptBuilder) :
  regular f -> regular g -> regular (fun sb => sb' <- f sb ;; g sb').
Proof.
  intros [Pf | (o1 & K1 & E1)] Hg.
  - left. intros sb. now rewrite Pf.
  - destruct Hg as [Pg | (o2 & K2 & E2)].
    + left. intros sb. rewrite E1. apply Pg.
    + right. exists (extend o1 o2). split.
      * rewrite errs_extend. now apply Forall_app.
      * intros sb. rewrite E1. cbn [bind]. now rewrite E2, extend_assoc.
Qed.

Lemma regular_ext (f g : ScriptBuilder -> Result ScriptBuilder) :
  (forall sb, f sb = g sb) -> regular f -> regular g.
Proof.
  intros E [Pf | (o & K & Ef)].
  - left. intros sb. now rewrite <- E.
  - right. exists o. split; [exact K|]. intros sb. now rewrite <- E.
Qed.

Lemma regular_after (f : ScriptBuilder -> Result ScriptBuilder)
    (g : ScriptBuilder -> ScriptBuilder) :
  clean g -> regular f -> regular (fun sb => f (g sb)).
Proof.
  intros Hg Hf.
  apply regular_ext with (f := fun sb => sb' <- Ok (g sb) ;; f sb'); [reflexivity|].
  apply regular_bind; [now apply regular_Ok | exact Hf].
Qed.

Lemma regular_then (f : ScriptBuilder -> Result ScriptBuilder)
    (g : ScriptBuilder -> ScriptBuilder) :
  regular f -> clean g -> regular (fun sb => sb' <- f sb ;; Ok (g sb')).
Proof. intros Hf Hg. apply regular_bind; [exact Hf | now apply regular_Ok]. Qed.

Lemma regular_for_rev {A : Type} (push : A -> ScriptBuilder -> Result ScriptBuilder)
    (a : list A) :
  Forall (fun x => regular (push x)) a -> regular (for_rev push a).
Proof.
  induction 1 as [|x t Hx Ht IH]; cbn [for_rev].
  - apply (regular_Ok (fun sb => sb)), clean_id.
  - apply (regular_bind (for_rev push t) (push x)); assumption.
Qed.

Lemma regular_for_down {A : Type} (push : A -> ScriptBuilder -> Result ScriptBuilder)
    (a : list A) (i : nat) :
  Forall (fun x => regular (push x)) a -> regular (for_down push a i).
Proof.
  intros Ha. induction i as [|j IH]; cbn [for_down].
  - apply (regular_Ok (fun sb => sb)), clean_id.
  - destruct (nth_error a j) as [x|] eqn:E; [|apply regular_Panic].
    apply (regular_bind (push x) (for_down push a j)); [|exact IH].
    rewrite Forall_forall in Ha. apply Ha. eapply nth_error_In; eassumption.
Qed.

Lemma regular_CreateMap_with (push : GoValue -> ScriptBuilder -> Result ScriptBuilder)
    (m : option (list (GoValue * GoValue))) :
  match m with
  | Some ps => Forall (fun kv => regular (push (fst kv)) /\ regular (push (snd kv))) ps
  | None => True
  end ->
  regular (CreateMap_with push m).
Proof.
  unfold CreateMap_with. destruct m as [ps|]; intros H; cbv zeta.
  - apply (regular_after _ (Emit NEWMAP None)); [apply clean_Emit|].
    induction H as [|[k v] t [Hk Hv] Ht IH].
    + apply (regular_Ok (fun sb => sb)), clean_id.
    + apply (regular_bind (fun sb => push k (Emit DUP None sb))
               (fun sb1 => sb2 <- push v sb1 ;;
                  (fix range (ps : list (GoValue * GoValue)) (sb : ScriptBuilder) :=
                     match ps with
                     | [] => Ok sb
                     | (k, v) :: ps' =>
                         sb1 <- push k (Emit DUP None sb) ;;
                         sb2 <- push v sb1 ;;
                         range ps' (Emit SETITEM None sb2)
                     end) t (Emit SETITEM None sb2))).
      * apply (regular_after _ (Emit DUP None)); [apply clean_Emit | exact Hk].
      * apply (regular_bind (push v)); [exact Hv|].
        apply (regular_after _ (Emit SETITEM None)); [apply clean_Emit | exact IH].
  - apply regular_Ok, clean_Emit.
Qed.

Lemma clean_PACK_count (n : Z) :
  clean (fun sb => Emit PACK None (EmitPushInteger (VInt KInt n) sb)).
Proof.
  apply (clean_comp (EmitPushInteger (VInt KInt n)) (Emit PACK None));
    [apply clean_EmitPushInteger | apply clean_Emit].
Qed.

Lemma regular_EmitPushObject_EmitPushParameter :
  (forall obj, regular (EmitPushObject obj)) /\
  (forall param, regular (EmitPushParameter param)).
Proof.
  assert (H : forall v,
             regular (EmitPushObject v) /\
             forall ty, regular (EmitPushParameter (mkContractParameter ty v))).
  { apply (GoValue_nested_ind
             (fun v => regular (EmitPushObject v) /\
                       forall ty, regular (EmitPushParameter (mkContractParameter ty v)))
             (fun p => regular (EmitPushParameter p))).
    - intros v Hv. split.
      + destruct v; try contradiction; cbn [EmitPushObject];
          try (apply regular_Ok;
               first [ apply clean_EmitPushBigInt | apply clean_EmitPushBool
                     | apply clean_EmitPushBytes | apply clean_EmitPushString
                     | apply clean_EmitPushSerializable | apply clean_EmitPushInteger
                     | apply clean_Emit | apply clean_addError; known_message ]).
        destruct p; [apply regular_Ok, clean_EmitPushBigInt | apply regular_Panic].
      + intros ty.
        destruct v; try contradiction; destruct ty; cbn [EmitPushParameter EmitPushObject];
          try apply regular_Panic;
          try (apply regular_Ok;
               first [ apply clean_EmitPushBigInt | apply clean_EmitPushBool
                     | apply clean_EmitPushBytes | apply clean_EmitPushString
                     | apply clean_EmitPushSerializable | apply clean_EmitPushInteger
                     | apply clean_Emit | apply clean_addError; known_message ]);
          try (destruct p; [apply regular_Ok, clean_EmitPushBigInt | apply regular_Panic]);
          try (destruct s; first [apply regular_Panic | apply regular_Ok, clean_EmitPushSerializable]).
    - intros p Hp. split; [exact Hp|].
      intros ty. destruct ty; cbn [EmitPushParameter EmitPushObject];
        first [apply regular_Panic | exact Hp | apply regular_Ok, clean_addError; known_message].
    - intros a Ha. split.
      + cbn [EmitPushObject]. apply regular_Ok, clean_addError; known_message.
      + intros ty. destruct ty; cbn [EmitPushParameter EmitPushObject];
          try apply regular_Panic;
          try (apply regular_Ok, clean_addError; known_message).
        apply regular_then; [now apply regular_for_rev | apply clean_PACK_count].
    - split.
      + cbn [EmitPushObject]. apply regular_Ok, clean_addError; known_message.
      + intros ty. destruct ty; cbn [EmitPushParameter EmitPushObject];
          try apply regular_Panic;
          try (apply regular_Ok, clean_addError; known_message).
        now apply regular_CreateMap_with.
    - intros ps Hps. split.
      + cbn [EmitPushObject]. apply regular_Ok, clean_addError; known_message.
      + intros ty. destruct ty; cbn [EmitPushParameter EmitPushObject];
          try apply regular_Panic;
          try (apply regular_Ok, clean_addError; known_message).
        apply regular_CreateMap_with.
        eapply Forall_impl; [|exact Hps]. cbn beta. intros kv [[Hk _] [Hv _]]. now split.
    - intros ty v [_ Hv]. apply Hv. }
  split; [intros obj; apply H|].
  intros [ty v]. apply H.
Qed.

End Regularity.

(** ** Sessions and [ToArray] *)




Section SessionFacts.
Context {opcodes : OpCodes} {externals : Externals}.

Lemma regular_perform (c : EncodeCall) : regular (perform c).
Proof.
  destruct regular_EmitPushObject_EmitPushParameter as [HO HP].
  assert (HFO : forall l : list GoValue, Forall (fun x => regular (EmitPushObject x)) l)
    by (intros l; apply Forall_forall; auto).
  assert (HFP : forall l : list ContractParameter,
             Forall (fun x => regular (EmitPushParameter x)) l)
    by (intros l; apply Forall_forall; auto).
  assert (Htail : forall scriptHash operation,
             clean (fun sb1 => EmitSysCall Call_ToInteropMethodHash
                      (EmitPushSerializable (SerUInt160 scriptHash)
                         (EmitPushString operation sb1)))).
  { intros scriptHash operation.
    apply (clean_comp (EmitPushString operation)
             (fun sb => EmitSysCall Call_ToInteropMethodHash
                          (EmitPushSerializable (SerUInt160 scriptHash) sb)));
      [apply clean_EmitPushString|].
    apply (clean_comp (EmitPushSerializable (SerUInt160 scriptHash))
             (EmitSysCall Call_ToInteropMethodHash));
      [apply clean_EmitPushSerializable | apply clean_EmitSysCall]. }
  destruct c; unfold perform.
  - apply regular_Ok, clean_Emit.
  - apply regular_Ok, clean_EmitCall.
  - apply regular_Ok, clean_EmitJump.
  - apply regular_Ok, clean_EmitPushBigInt.
  - apply regular_Ok, clean_EmitPushInteger.
  - apply regular_Ok, clean_EmitPushBool.
  - apply regular_Ok, clean_EmitPushBytes.
  - apply regular_Ok, clean_EmitPushString.
  - apply regular_Ok, clean_EmitRaw.
  - apply regular_Ok, clean_EmitSysCall.
  - unfold CreateArray. destruct list as [l|]; [|apply regular_Ok, clean_Emit].
    destruct (length l =? 0)%nat; [apply regular_Ok, clean_Emit|].
    apply regular_then; [apply regular_for_down, HFO | apply clean_PACK_count].
  - unfold CreateMap. apply regular_CreateMap_with.
    destruct m as [ps|]; [|exact I]. apply Forall_forall. intros kv _. split; apply HO.
  - apply regular_Ok, clean_EmitOpCodes.
  - unfold EmitDynamicCall.
    apply regular_then; [|apply Htail].
    apply (regular_after _ (Emit NEWARRAY0 None)); [apply clean_Emit | apply HO].
  - unfold EmitDynamicCallParam. cbv zeta.
    apply (regular_bind (for_down EmitPushParameter _ (len args))).
    + apply regular_for_down, HFP.
    + apply regular_then; [|apply Htail].
      apply (regular_after _ (fun sb0 => Emit PACK None
                                (EmitPushInteger (VInt KInt (Z.of_nat (len args))) sb0)));
        [apply clean_PACK_count | apply HO].
  - unfold EmitDynamicCallObj. cbv zeta.
    apply (regular_bind (for_down EmitPushObject _ (len objs))).
    + apply regular_for_down, HFO.
    + apply regular_then; [|apply Htail].
      apply (regular_after _ (fun sb0 => Emit PACK None
                                (EmitPushInteger (VInt KInt (Z.of_nat (len objs))) sb0)));
        [apply clean_PACK_count | apply HO].
  - apply regular_Ok, clean_EmitPushSerializable.
  - apply HP.
  - apply HO.
  - unfold EmitSysCallWithParam.
    apply regular_then; [|apply clean_EmitSysCall].
    destruct args as [l|].
    + apply regular_for_down, HFO.
    + apply (regular_Ok (fun sb => sb)), clean_id.
Qed.




End SessionFacts.

(** ** Arrays *)

Lemma fold_push_Panic {A : Type} (push : A -> ScriptBuilder -> Result ScriptBuilder)
    (xs : list A) :
  fold_left (fun r x => s <- r ;; push x s) xs Panic = Panic.
Proof. induction xs; cbn [fold_left bind]; auto. Qed.

Lemma push_each_cons {A : Type} (push : A -> ScriptBuilder -> Result ScriptBuilder)
    (x : A) (xs : list A) (sb : ScriptBuilder) :
  push_each push (x :: xs) sb = (s <- push x sb ;; push_each push xs s).
Proof.
  unfold push_each. cbn [fold_left bind].
  destruct (push x sb); cbn [bind]; [reflexivity | apply fold_push_Panic].
Qed.

Lemma for_down_push_each {A : Type} (push : A -> ScriptBuilder -> Result ScriptBuilder)
    (a : list A) (i : nat) (sb : ScriptBuilder) :
  (i <= length a)%nat ->
  for_down push a i sb = push_each push (rev (firstn i a)) sb.
Proof.
  revert sb. induction i as [|j IH]; intros sb Hi; [reflexivity|].
  cbn [for_down].
  destruct (nth_error a j) as [x|] eqn:E.
  - assert (F : firstn (S j) a = firstn j a ++ [x]).
    { clear IH. revert a Hi E. induction j as [|j IHj]; intros [|y a] Hi E;
        cbn in *; try lia; try discriminate.
      - now injection E as ->.
      - f_equal. apply IHj; [lia | exact E]. }
    rewrite F, rev_app_distr. cbn [rev app]. rewrite push_each_cons.
    destruct (push x sb) as [sb'|]; cbn [bind]; [apply IH; lia | reflexivity].
  - apply nth_error_None in E. lia.
Qed.

Lemma for_rev_push_each {A : Type} (push : A -> ScriptBuilder -> Result ScriptBuilder)
    (a : list A) (sb : ScriptBuilder) :
  for_rev push a sb = push_each push (rev a) sb.
Proof.
  induction a as [|x t IH]; [reflexivity|].
  cbn [for_rev rev]. rewrite IH. unfold push_each.
  rewrite fold_left_app. reflexivity.
Qed.

Lemma for_rev_for_down {A : Type} (push : A -> ScriptBuilder -> Result ScriptBuilder)
    (a : list A) (sb : ScriptBuilder) :
  for_rev push a sb = for_down push a (length a) sb.
Proof.
  rewrite for_rev_push_each, for_down_push_each by lia. now rewrite firstn_all.
Qed.

Lemma Forall2_rev_rev {A B : Type} (R : A -> B -> Prop) (l : list A) (l' : list B) :
  Forall2 R l l' -> Forall2 R (rev l) (rev l').
Proof.
  induction 1 as [|x y l l' Hxy _ IH]; cbn [rev]; [constructor|].
  apply Forall2_app; [exact IH | repeat constructor; exact Hxy].
Qed.

Section Composite.
Context {opcodes : OpCodes} {externals : Externals}.

Lemma EmitPushObject_fresh (obj : GoValue) (sb : ScriptBuilder) :
  EmitPushObject obj sb
  = (out <- EmitPushObject obj NewScriptBuilder ;; Ok (extend sb out)).
Proof.
  destruct (proj1 regular_EmitPushObject_EmitPushParameter obj) as [Pc | (o & Ko & Ec)].
  - now rewrite !Pc.
  - rewrite !Ec. cbn [bind]. now rewrite extend_New_l.
Qed.

Lemma push_each_outputs (xs : list GoValue) (outs : list ScriptBuilder) (sb : ScriptBuilder) :
  Forall2 (fun x o => EmitPushObject x NewScriptBuilder = Ok o) xs outs ->
  push_each EmitPushObject xs sb
  = Ok (mkScriptBuilder (buff sb ++ concat (map buff outs))
                        (errs sb ++ concat (map errs outs))).
Proof.
  intros H. revert sb. induction H as [|x o xs outs Hx _ IH]; intros sb.
  - unfold push_each. cbn. now rewrite !app_nil_r; destruct sb.
  - rewrite push_each_cons, EmitPushObject_fresh, Hx. cbn [bind].
    rewrite IH. unfold extend. cbn [buff errs map concat].
    now rewrite !app_assoc.
Qed.

Lemma EmitPushBigInt_fresh (n : Z) (sb : ScriptBuilder) :
  EmitPushBigInt n sb = extend sb (EmitPushBigInt n NewScriptBuilder).
Proof. apply clean_EmitPushBigInt. Qed.

(** C8.  [CreateArray] on an absent or empty list appends the single opcode
    [NEWARRAY0].  On a non-empty list it pushes the elements with
    [EmitPushObject] from the last to the first, then pushes the number of
    elements, then appends [PACK], and nothing else: when every element can
    be pushed, the bytes appended are the bytes of the elements in reverse
    order, the bytes of the count and [PACK].  For [A; B; C] the pushes are
    those of C, B, A and 3. *)
Theorem CreateArray_order :
  (forall sb,
     CreateArray None sb = Ok (mkScriptBuilder (buff sb ++ [NEWARRAY0]) (errs sb)) /\
     CreateArray (Some []) sb = Ok (mkScriptBuilder (buff sb ++ [NEWARRAY0]) (errs sb))) /\
  (forall l sb,
     l <> [] -> Z.of_nat (length l) < 2 ^ 63 ->
     CreateArray (Some l) sb
     = (sb' <- push_each EmitPushObject (rev l) sb ;;
        Ok (Emit PACK None (EmitPushBigInt (Z.of_nat (length l)) sb')))) /\
  (forall l outs sb,
     l <> [] -> Z.of_nat (length l) < 2 ^ 63 ->
     Forall2 (fun x out => EmitPushObject x NewScriptBuilder = Ok out) l outs ->
     exists sb',
       CreateArray (Some l) sb = Ok sb' /\
       buff sb' = buff sb ++ concat (map buff (rev outs))
                    ++ buff (EmitPushBigInt (Z.of_nat (length l)) NewScriptBuilder)
                    ++ [PACK]) /\
  (forall A B C sb,
     CreateArray (Some [A; B; C]) sb
     = (sC <- EmitPushObject C sb ;;
        sB <- EmitPushObject B sC ;;
        sA <- EmitPushObject A sB ;;
        Ok (Emit PACK None (EmitPushBigInt 3 sA)))).
Proof.
  assert (General : forall l sb,
            l <> [] -> Z.of_nat (length l) < 2 ^ 63 ->
            CreateArray (Some l) sb
            = (sb' <- push_each EmitPushObject (rev l) sb ;;
               Ok (Emit PACK None (EmitPushBigInt (Z.of_nat (length l)) sb')))).
  { intros l sb Hl Hn. unfold CreateArray.
    destruct (Nat.eqb_spec (length l) 0) as [E|_].
    - destruct l; [congruence | discriminate].
    - rewrite for_down_push_each by lia. rewrite firstn_all.
      cbn [EmitPushInteger]. rewrite to_int64_small; [reflexivity|].
      change (2 ^ 63) with 9223372036854775808 in *. lia. }
  split; [|split; [exact General | split]].
  - intros sb. split; reflexivity.
  - intros l outs sb Hl Hn Houts.
    rewrite General by assumption.
    rewrite (push_each_outputs (rev l) (rev outs)) by (now apply Forall2_rev_rev).
    cbn [bind]. eexists. split; [reflexivity|].
    rewrite Emit_None. cbn [buff]. rewrite EmitPushBigInt_fresh.
    unfold extend. cbn [buff]. now rewrite <- !app_assoc.
  - intros A B C sb. rewrite General; [|discriminate|reflexivity].
    cbn [rev app length]. rewrite push_each_cons.
    destruct (EmitPushObject C sb) as [sC|]; cbn [bind]; [|reflexivity].
    rewrite push_each_cons.
    destruct (EmitPushObject B sC) as [sB|]; cbn [bind]; [|reflexivity].
    rewrite push_each_cons.
    destruct (EmitPushObject A sB) as [sA|]; cbn [bind]; reflexivity.
Qed.

End Composite.

(** ** Dynamic calls and declared parameters *)

Section CallsAndParameters.
Context {opcodes : OpCodes} {externals : Externals}.

Lemma min_len_1 (n : Z) : -128 <= n <= 127 -> min_len n = 1%nat.
Proof.
  intros H. pose proof (min_len_pos n).
  assert (min_len n <= 1)%nat; [|lia].
  apply min_len_least; [lia|]. unfold fits. change (256 ^ Z.of_nat 1) with 256. lia.
Qed.

Lemma min_len_2 (n : Z) : 128 <= n <= 32767 -> min_len n = 2%nat.
Proof.
  intros H. pose proof (min_len_fits n) as F.
  assert (min_len n <= 2)%nat.
  { apply min_len_least; [lia|]. unfold fits. change (256 ^ Z.of_nat 2) with 65536. lia. }
  destruct (Nat.eq_dec (min_len n) 1) as [E|E]; [|pose proof (min_len_pos n); lia].
  rewrite E in F. unfold fits in F. change (256 ^ Z.of_nat 1) with 256 in F. lia.
Qed.

Lemma EmitPushBigInt_flags (f : Z) (sb : ScriptBuilder) :
  is_byte f -> 0 <= PUSH0 -> PUSH0 + 16 <= 255 ->
  EmitPushBigInt (to_int64 f) sb
  = mkScriptBuilder (buff sb ++ push_flags_bytes f) (errs sb).
Proof.
  unfold is_byte. intros Hf H0 H16.
  rewrite to_int64_small by (change (2 ^ 63) with 9223372036854775808; lia).
  unfold push_flags_bytes, EmitPushBigInt.
  destruct (Z.leb_spec f 16).
  - replace (-1 <=? f) with true by (symmetry; apply Z.leb_le; lia).
    cbn [andb]. rewrite Emit_None.
    rewrite to_int64_small by (change (2 ^ 63) with 9223372036854775808; lia).
    unfold to_byte. rewrite Zplus_mod_idemp_r, Z.mod_small by lia. reflexivity.
  - rewrite andb_false_r. cbv zeta. rewrite BigIntToNeoBytes_length.
    unfold BigIntToNeoBytes.
    destruct (Z.leb_spec f 127).
    + rewrite min_len_1 by lia. cbn [Nat.eqb le_bytes]. rewrite Emit_Some.
      rewrite Z.mod_small by lia. reflexivity.
    + rewrite min_len_2 by lia. cbn [Nat.eqb le_bytes]. rewrite Emit_Some.
      rewrite Z.mod_small by lia. rewrite Z.div_small by lia. reflexivity.
Qed.

Lemma EmitSysCall_bytes (api : Z) (sb : ScriptBuilder) :
  EmitSysCall api sb = mkScriptBuilder (buff sb ++ SYSCALL :: le_bytes 4 api) (errs sb).
Proof.
  unfold EmitSysCall, UInt32ToBytes, to_uint32. rewrite Emit_Some.
  change (2 ^ 32) with (256 ^ Z.of_nat 4). now rewrite le_bytes_mod.
Qed.

(** C9.  A dynamic call with no arguments appends, in this order and with
    nothing else: [NEWARRAY0], the push of the call flags [All], the push of
    the bytes of the operation name, the push of the bytes of the target,
    and [SYSCALL] with the 4 little-endian bytes of the interop hash.
    [MakeScript] with an absent or an empty argument list returns this
    script and no error. *)
Theorem EmitDynamicCall_no_arguments (scriptHash : UInt160) (operation : list byte) :
  is_byte All -> 0 <= PUSH0 -> PUSH0 + 16 <= 255 ->
  let script :=
    NEWARRAY0 :: push_flags_bytes All
    ++ push_data_bytes operation
    ++ push_data_bytes scriptHash
    ++ SYSCALL :: le_bytes 4 Call_ToInteropMethodHash in
  (forall sb,
     EmitDynamicCall scriptHash operation sb
     = Ok (mkScriptBuilder (buff sb ++ script) (errs sb))) /\
  MakeScript scriptHash operation None = Ok (script, None) /\
  MakeScript scriptHash operation (Some []) = Ok (script, None).
Proof.
  intros HAll H0 H16 script.
  assert (E : forall sb,
             EmitDynamicCall scriptHash operation sb
             = Ok (mkScriptBuilder (buff sb ++ script) (errs sb))).
  { intros sb. unfold EmitDynamicCall. cbn [EmitPushObject bind].
    rewrite EmitPushBigInt_flags by assumption.
    unfold EmitPushString, EmitPushSerializable. cbn [io_ToArray addError].
    rewrite EmitSysCall_bytes, !EmitPushBytes_Some, Emit_None. cbn [buff errs].
    unfold script. do 2 f_equal. rewrite <- !app_assoc. reflexivity. }
  split; [exact E|].
  split; unfold MakeScript; cbn [len length Nat.ltb Nat.leb andb]; rewrite E;
    reflexivity.
Qed.

(** C2, as amended.  For a parameter whose value is not nil and does not
    have the dynamic type the branch of its tag asserts, [EmitPushParameter]
    panics when the tag is Signature, ByteArray, Boolean, Hash160, Hash256,
    PublicKey, String, Array or Map: nothing is recorded and the call does
    not return.  With the tag Integer the value goes to [EmitPushObject],
    which encodes it by its dynamic type; an unknown tag records "invalid
    param type". *)
Theorem EmitPushParameter_mismatch (ty : ContractParameterType) (value : GoValue)
    (sb : ScriptBuilder) :
  value <> VNilInterface -> asserted ty value = false ->
  EmitPushParameter (mkContractParameter ty value) sb
  = match ty with
    | Integer => EmitPushObject value sb
    | OtherParameterType => Ok (addError (Some "invalid param type"%string) sb)
    | _ => Panic
    end.
Proof.
  intros Hnil Hmis.
  destruct ty; destruct value; try congruence; try discriminate Hmis;
    cbn [EmitPushParameter] in *; try reflexivity;
    destruct s; try discriminate Hmis; reflexivity.
Qed.

End CallsAndParameters.

(** ** The theorems at concrete inputs, on the opcodes of Neo N3 *)

Lemma EmitPushBigInt_small_witness :
  -1 <= -1 <= 16 /\
  EmitPushBigInt (opcodes := neo_opcodes) (-1) NewScriptBuilder
  = mkScriptBuilder [0x0F] [].
Proof.
  split; [lia|].
  apply (EmitPushBigInt_small (opcodes := neo_opcodes) (-1) NewScriptBuilder);
    cbn; lia.
Defined.

Lemma EmitPushBigInt_width_class_witness :
  (-70000 < -1 \/ 16 < -70000) /\
  (length (BigIntToNeoBytes (-70000)) <= 32)%nat /\
  exists w : nat,
    (w <= 4)%nat /\
    EmitPushBigInt (opcodes := neo_opcodes) (-70000) NewScriptBuilder
    = mkScriptBuilder
        (PUSHINT_of_width (opcodes := neo_opcodes) w
           :: [0x90; 0xEE; 0xFE] ++ repeat 0xFF (w - 3))
        [].
Proof.
  assert (H1 : -70000 < -1 \/ 16 < -70000) by (left; lia).
  assert (H2 : (length (BigIntToNeoBytes (-70000)) <= 32)%nat)
    by (apply Nat.leb_le; reflexivity).
  split; [exact H1 | split; [exact H2|]].
  destruct (proj1 (EmitPushBigInt_width_class (opcodes := neo_opcodes))
              (-70000) NewScriptBuilder H1 H2)
    as (w & _ & _ & Hmin & Heq & _ & _).
  exists w. split; [|exact Heq].
  apply Hmin; [cbn; tauto | apply Nat.leb_le; reflexivity].
Defined.

Lemma EmitPushBytes_framing_witness :
  repeat 7 300 <> [] /\
  EmitPushBytes (opcodes := neo_opcodes) (Some (repeat 7 300)) NewScriptBuilder
  = mkScriptBuilder (0x0D :: 0x2C :: 0x01 :: repeat 7 300) [].
Proof.
  assert (H : repeat 7 300 <> []) by discriminate.
  split; [exact H|].
  exact (proj1 (EmitPushBytes_framing (opcodes := neo_opcodes)
                  (repeat 7 300) NewScriptBuilder H)).
Defined.

Lemma EmitPushInteger_uint64_witness :
  0 <= 18446744073709551615 < 2 ^ 64 /\
  EmitPushInteger (opcodes := neo_opcodes) (VInt KUint64 18446744073709551615)
    NewScriptBuilder
  = mkScriptBuilder [0x0F] [].
Proof.
  assert (H : 0 <= 18446744073709551615 < 2 ^ 64)
    by (change (2 ^ 64) with 18446744073709551616; lia).
  split; [exact H|].
  rewrite (EmitPushInteger_uint64 (opcodes := neo_opcodes) _ NewScriptBuilder H).
  reflexivity.
Defined.

Lemma EmitJump_forms_witness :
  EmitJump (opcodes := neo_opcodes) 0x22 200 NewScriptBuilder
  = mkScriptBuilder [0x23; 200; 0; 0; 0] [] /\
  EmitJump (opcodes := neo_opcodes) 0x22 100 NewScriptBuilder
  = mkScriptBuilder [0x22; 100] [].
Proof.
  destruct (EmitJump_forms (opcodes := neo_opcodes)) as (_ & Hlong & Hshort & _).
  split.
  - apply (Hlong 0x22 200 NewScriptBuilder);
      [unfold is_byte; lia | cbn; lia | reflexivity | right; lia].
  - apply (Hshort 0x22 100 NewScriptBuilder); [cbn; lia | reflexivity | lia].
Defined.


Lemma CreateArray_order_witness :
  CreateArray (opcodes := neo_opcodes)
    (Some [VBool true; VBool false; VInt KInt 5]) NewScriptBuilder
  = Ok (mkScriptBuilder [0x15; 0x10; 0x11; 0x13; 0xC0] []).
Proof.
  rewrite (proj1 (proj2 (CreateArray_order (opcodes := neo_opcodes))));
    [reflexivity | discriminate | reflexivity].
Defined.

Lemma EmitDynamicCall_no_arguments_witness :
  MakeScript (opcodes := neo_opcodes) (externals := neo_externals)
    (repeat 0xAB 20) [116; 114; 97; 110; 115; 102; 101; 114] None
  = Ok (0xC2 :: 0x1F
          :: 0x0C :: 8 :: [116; 114; 97; 110; 115; 102; 101; 114]
          ++ 0x0C :: 20 :: repeat 0xAB 20
          ++ [0x41; 0x62; 0x7D; 0x5B; 0x52],
        None).
Proof.
  apply (EmitDynamicCall_no_arguments (opcodes := neo_opcodes)
           (externals := neo_externals));
    [unfold is_byte | |]; cbn; lia.
Defined.

Lemma EmitPushParameter_mismatch_witness :
  VString [120] <> VNilInterface /\
  EmitPushParameter (opcodes := neo_opcodes)
    (mkContractParameter Boolean (VString [120])) NewScriptBuilder = Panic.
Proof.
  assert (H : VString [120] <> VNilInterface) by discriminate.
  split; [exact H|].
  exact (EmitPushParameter_mismatch (opcodes := neo_opcodes) Boolean (VString [120])
           NewScriptBuilder H eq_refl).
Defined.

(** ** Inputs on which the specification and the code part *)

(** C2: the tag ByteArray with an integer value.  The assertion of [[]byte]
    fails: the call panics, it records nothing and does not return. *)
Lemma EmitPushParameter_mismatch_counterexample :
  EmitPushParameter (opcodes := neo_opcodes)
    (mkContractParameter ByteArray (VInt KInt 7)) NewScriptBuilder = Panic /\
  forall sb', EmitPushParameter (opcodes := neo_opcodes)
                (mkContractParameter ByteArray (VInt KInt 7)) NewScriptBuilder
              <> Ok sb'.
Proof. split; [reflexivity | discriminate]. Qed.


(** C4: the empty sequence that is not nil.  Two bytes are appended and no
    error is recorded. *)
Lemma EmitPushBytes_empty_counterexample :
  buff (EmitPushBytes (opcodes := neo_opcodes) (Some []) NewScriptBuilder)
  = [0x0C; 0x00] /\
  buff (EmitPushBytes (opcodes := neo_opcodes) (Some []) NewScriptBuilder)
  <> buff NewScriptBuilder /\
  errs (EmitPushBytes (opcodes := neo_opcodes) (Some []) NewScriptBuilder) = [].
Proof. repeat split. discriminate. Qed.

(** * Further properties of the builder *)

(** ** Calls, integers and booleans *)

Section ScalarPushes.
Context {opcodes : OpCodes} {externals : Externals}.

(** X1.  [EmitCall] takes the short form for an offset in [-128, 127]: [CALL]
    and the offset in one byte; for every other offset it takes the long
    form: [CALL_L] and the four bytes of [helper.IntToBytes].  No error is
    recorded in either case. *)
Theorem EmitCall_forms (offset : Z) (sb : ScriptBuilder) :
  (-128 <= offset <= 127 ->
   EmitCall offset sb
   = mkScriptBuilder (buff sb ++ [CALL; offset mod 256]) (errs sb)) /\
  (offset < -128 \/ 127 < offset ->
   EmitCall offset sb
   = mkScriptBuilder (buff sb ++ CALL_L :: IntToBytes offset) (errs sb) /\
   length (IntToBytes offset) = 4%nat).
Proof.
  unfold EmitCall. split; intros H.
  - replace ((offset <? -128) || (offset >? 127)) with false
      by (symmetry; apply orb_false_iff;
          rewrite Z.ltb_ge, Z.gtb_ltb, Z.ltb_ge; lia).
    apply Emit_Some.
  - replace ((offset <? -128) || (offset >? 127)) with true
      by (symmetry; apply orb_true_iff; rewrite Z.ltb_lt, Z.gtb_gt; lia).
    split; [apply Emit_Some | apply length_le_bytes].
Qed.

Lemma EmitPushBigInt_too_long (number : Z) (sb : ScriptBuilder) :
  (32 < min_len number)%nat ->
  EmitPushBigInt number sb
  = mkScriptBuilder (buff sb) (errs sb ++ ["argument out of range: number"%string]).
Proof.
  intros H. unfold EmitPushBigInt.
  assert (Hn : number < -128 \/ 127 < number).
  { destruct (Z_lt_le_dec number (-128)); [now left|].
    destruct (Z_lt_le_dec 127 number); [now right|].
    rewrite min_len_1 in H by lia. lia. }
  replace ((-1 <=? number) && (number <=? 16)) with false
    by (symmetry; apply andb_false_iff;
        destruct Hn; [left; apply Z.leb_gt | right; apply Z.leb_gt]; lia).
  cbv zeta. rewrite BigIntToNeoBytes_length.
  destruct (Nat.eqb_spec (min_len number) 1); [lia|].
  destruct (Nat.eqb_spec (min_len number) 2); [lia|].
  repeat match goal with
         | |- context [(min_len number <=? ?k)%nat] =>
             destruct (Nat.leb_spec (min_len number) k); [lia|]
         end.
  reflexivity.
Qed.

(** X2.  [EmitPushBigInt] either emits or records, never both.  When the
    byte form of the number has at most 32 bytes it records nothing and
    appends 1, 2, 3, 5, 9, 17 or 33 bytes; when the form is longer it records
    "argument out of range: number" once and leaves the buffer as it was. *)
Theorem EmitPushBigInt_growth (number : Z) (sb : ScriptBuilder) :
  ((length (BigIntToNeoBytes number) <= 32)%nat ->
   errs (EmitPushBigInt number sb) = errs sb /\
   exists k, In k [1; 2; 3; 5; 9; 17; 33]%nat /\
             length (buff (EmitPushBigInt number sb)) = (length (buff sb) + k)%nat) /\
  ((32 < length (BigIntToNeoBytes number))%nat ->
   buff (EmitPushBigInt number sb) = buff sb /\
   errs (EmitPushBigInt number sb)
   = errs sb ++ ["argument out of range: number"%string]).
Proof.
  rewrite BigIntToNeoBytes_length. split; intros Hm.
  - destruct (Z_lt_le_dec number (-1)) as [Hlo|Hlo];
      [|destruct (Z_lt_le_dec 16 number) as [Hhi|Hhi]].
    3: { unfold EmitPushBigInt.
         replace ((-1 <=? number) && (number <=? 16)) with true
           by (symmetry; apply andb_true_iff; split; apply Z.leb_le; lia).
         rewrite Emit_None. cbn [buff errs]. split; [reflexivity|].
         exists 1%nat. split; [cbn; tauto|]. rewrite length_app. reflexivity. }
    all: destruct (least_width_class (min_len number)) as (w & Hin & Hle & Hmin);
      [pose proof (min_len_pos number); lia|];
      rewrite (EmitPushBigInt_class number sb w) by (assumption || lia);
      cbn [buff errs]; (split; [reflexivity|]);
      exists (1 + w)%nat;
      (split;
       [ unfold width_classes in Hin; cbn [In] in Hin |- *;
         repeat (destruct Hin as [<- | Hin]; [tauto|]); contradiction
       | rewrite length_app; cbn [length];
         rewrite length_app, repeat_length, BigIntToNeoBytes_length; lia ]).
  - rewrite EmitPushBigInt_too_long by assumption. split; reflexivity.
Qed.

(** X3.  A number of the [int64] range is pushed in the same way however it
    is handed over: as a fixed-width integer of any of the ten types to
    [EmitPushInteger] or [EmitPushObject], as a [big.Int] or a non-nil
    [*big.Int] to [EmitPushObject], or as the value of a parameter with the
    tag Integer.  Each is [EmitPushBigInt] of the number. *)
Theorem integer_pushes_agree (k : IntKind) (n : Z) (sb : ScriptBuilder) :
  - 2 ^ 63 <= n < 2 ^ 63 ->
  EmitPushInteger (VInt k n) sb = EmitPushBigInt n sb /\
  EmitPushObject (VInt k n) sb = Ok (EmitPushBigInt n sb) /\
  EmitPushObject (VBigInt n) sb = Ok (EmitPushBigInt n sb) /\
  EmitPushObject (VBigIntPtr (Some n)) sb = Ok (EmitPushBigInt n sb) /\
  EmitPushParameter (mkContractParameter Integer (VInt k n)) sb
  = Ok (EmitPushBigInt n sb).
Proof.
  intros H.
  assert (E : EmitPushInteger (VInt k n) sb = EmitPushBigInt n sb).
  { destruct k; cbn [EmitPushInteger]; rewrite ?to_int64_small by assumption;
      reflexivity. }
  repeat split; cbn [EmitPushObject EmitPushParameter]; rewrite ?E; reflexivity.
Qed.

(** X4.  [EmitPushBool] is the integer push of 1 for true and of 0 for
    false, when [PUSH1] is the opcode after [PUSH0]. *)
Theorem EmitPushBool_as_integer (data : bool) (sb : ScriptBuilder) :
  PUSH1 = PUSH0 + 1 -> 0 <= PUSH0 -> PUSH0 + 1 <= 255 ->
  EmitPushBool data sb = EmitPushBigInt (if data then 1 else 0) sb.
Proof.
  intros H1 Hlo Hhi. unfold EmitPushBool, EmitPushBigInt.
  destruct data.
  - change ((-1 <=? 1) && (1 <=? 16)) with true. cbv iota zeta.
    change (to_byte (to_int64 1)) with 1.
    unfold to_byte. rewrite Z.mod_small by lia. now rewrite H1.
  - change ((-1 <=? 0) && (0 <=? 16)) with true. cbv iota zeta.
    change (to_byte (to_int64 0)) with 0.
    unfold to_byte. rewrite Z.add_0_r, Z.mod_small by lia. reflexivity.
Qed.

(** X8.  An opcode outside [JMP, JMPLE_L] does not stop [EmitJump]: it
    records "argument out of range: invalid OpCode" once and still appends
    the instruction, in the form the parity of the opcode and the offset
    select. *)
Theorem EmitJump_invalid_opcode_still_emits (op : byte) (offset : Z)
    (sb : ScriptBuilder) :
  is_byte op -> op < JMP \/ JMPLE_L < op ->
  errs (EmitJump op offset sb)
  = errs sb ++ ["argument out of range: invalid OpCode"%string] /\
  buff (EmitJump op offset sb)
  = buff sb
    ++ (if op mod 2 =? 0
        then if (offset <? -128) || (offset >? 127)
             then (op + 1) :: IntToBytes offset
             else [op; offset mod 256]
        else op :: IntToBytes offset).
Proof.
  intros Hb Hop. unfold is_byte in Hb. unfold EmitJump.
  replace ((op <? JMP) || (op >? JMPLE_L)) with true
    by (symmetry; apply orb_true_iff; rewrite Z.ltb_lt, Z.gtb_gt; lia).
  cbv zeta.
  destruct (Z.eqb_spec (op mod 2) 0) as [Hev|Hodd]; cbn [andb].
  - destruct ((offset <? -128) || (offset >? 127)).
    + assert (op <> 255) by (intros ->; discriminate Hev).
      assert (Ho : (op + 1) mod 2 = 1)
        by (rewrite <- Zplus_mod_idemp_l, Hev; reflexivity).
      unfold to_byte. rewrite (Z.mod_small (op + 1)) by lia.
      rewrite Ho. cbn [Z.eqb]. rewrite Emit_Some. split; reflexivity.
    + rewrite Hev. cbn [Z.eqb]. rewrite Emit_Some. split; reflexivity.
  - destruct (Z.eqb_spec (op mod 2) 0); [contradiction|].
    rewrite Emit_Some. split; reflexivity.
Qed.

End ScalarPushes.

(** ** Bytes, raw bytes and opcode lists *)

Section BytePushes.
Context {opcodes : OpCodes} {externals : Externals}.

Lemma length_push_data_bytes (d : list byte) :
  length (push_data_bytes d)
  = (1 + prefix_width (Z.of_nat (length d)) + length d)%nat.
Proof.
  unfold push_data_bytes. cbn [length]. rewrite length_app, length_le_bytes. lia.
Qed.

Lemma push_data_bytes_inj (d1 d2 : list byte) :
  push_data_bytes d1 = push_data_bytes d2 -> d1 = d2.
Proof.
  intros E.
  assert (L : length d1 = length d2).
  { apply (f_equal (@length byte)) in E. rewrite !length_push_data_bytes in E.
    unfold prefix_width in E.
    destruct (Z.ltb_spec (Z.of_nat (length d1)) 256),
             (Z.ltb_spec (Z.of_nat (length d2)) 256);
      try destruct (Z.ltb_spec (Z.of_nat (length d1)) 65536);
      try destruct (Z.ltb_spec (Z.of_nat (length d2)) 65536); lia. }
  unfold push_data_bytes in E. rewrite L in E.
  injection E as E. now apply app_inv_head in E.
Qed.

(** X5.  [EmitPushBytes] is injective: two byte sequences that leave the same
    builder behind are the same sequence, so the data can be read back from
    what was appended. *)
Theorem EmitPushBytes_injective (d1 d2 : list byte) (sb : ScriptBuilder) :
  EmitPushBytes (Some d1) sb = EmitPushBytes (Some d2) sb -> d1 = d2.
Proof.
  rewrite !EmitPushBytes_Some. intros E.
  apply push_data_bytes_inj.
  injection E as E. now apply app_inv_head in E.
Qed.

(** X6.  [EmitRaw] appends its bytes as they are and a nil argument changes
    nothing; two raw emissions are one emission of the concatenation.  The
    bytes that any call leaves in a fresh builder can be spliced into another
    builder with [EmitRaw]: the buffer is the one the call itself would have
    produced there. *)
Theorem EmitRaw_splice :
  (forall sb, EmitRaw None sb = sb) /\
  (forall a b sb,
     EmitRaw (Some (a ++ b)) sb = EmitRaw (Some b) (EmitRaw (Some a) sb)) /\
  (forall c out sb,
     perform c NewScriptBuilder = Ok out ->
     exists sb',
       perform c sb = Ok sb' /\
       buff (EmitRaw (Some (buff out)) sb) = buff sb').
Proof.
  split; [reflexivity | split].
  - intros a b sb. unfold EmitRaw, Write. cbn [buff errs]. now rewrite app_assoc.
  - intros c out sb Hc.
    destruct (regular_perform c) as [Pc | (o & _ & Ec)].
    + rewrite Pc in Hc. discriminate.
    + rewrite Ec in Hc. injection Hc as <-. rewrite extend_New_l.
      exists (extend sb o). split; [apply Ec | reflexivity].
Qed.

(** X7.  [EmitOpCodes] appends the opcodes in the order given, one byte
    each, and records nothing; a nil list changes nothing. *)
Theorem EmitOpCodes_appends (sb : ScriptBuilder) :
  EmitOpCodes None sb = sb /\
  forall ops, EmitOpCodes (Some ops) sb = mkScriptBuilder (buff sb ++ ops) (errs sb).
Proof.
  split; [reflexivity|]. intros ops. cbn [EmitOpCodes]. revert sb.
  induction ops as [|op ops IH]; intros sb; cbn [fold_left].
  - rewrite app_nil_r. now destruct sb.
  - rewrite IH, Emit_None. cbn [buff errs]. now rewrite <- app_assoc.
Qed.

End BytePushes.

(** ** Maps, system calls and dynamic calls *)

Section CompositeCalls.
Context {opcodes : OpCodes} {externals : Externals}.

Lemma range_outputs (ps : list (GoValue * GoValue))
    (outs : list (ScriptBuilder * ScriptBuilder)) (s : ScriptBuilder) :
  Forall2 (fun kv o => EmitPushObject (fst kv) NewScriptBuilder = Ok (fst o) /\
                       EmitPushObject (snd kv) NewScriptBuilder = Ok (snd o))
          ps outs ->
  (fix range (ps : list (GoValue * GoValue)) (sb : ScriptBuilder) :=
     match ps with
     | [] => Ok sb
     | (k, v) :: ps' =>
         sb1 <- EmitPushObject k (Emit DUP None sb) ;;
         sb2 <- EmitPushObject v sb1 ;;
         range ps' (Emit SETITEM None sb2)
     end) ps s
  = Ok (mkScriptBuilder
          (buff s ++ concat (map (fun o => DUP :: buff (fst o) ++ buff (snd o) ++ [SETITEM])
                                 outs))
          (errs s ++ concat (map (fun o => errs (fst o) ++ errs (snd o)) outs))).
Proof.
  intros H. revert s.
  induction H as [|[k v] [ok ov] ps outs [Hk Hv] _ IH]; intros s.
  - cbn [map concat]. rewrite !app_nil_r. now destruct s.
  - cbn [fst snd] in Hk, Hv.
    rewrite (EmitPushObject_fresh k), Hk. cbn [bind].
    rewrite (EmitPushObject_fresh v), Hv. cbn [bind].
    rewrite IH. rewrite !Emit_None. unfold extend. cbn [buff errs map concat fst snd].
    f_equal. f_equal; repeat first [rewrite <- app_assoc | progress cbn [app]];
      reflexivity.
Qed.

(** X9.  [CreateMap] on a nil or an empty map appends the single opcode
    [NEWMAP].  On the pairs it visits it appends [NEWMAP] and then, pair by
    pair, [DUP], the push of the key, the push of the value and [SETITEM],
    when every key and value can be pushed; the errors of those pushes are
    recorded in the same order. *)
Theorem CreateMap_layout :
  (forall sb,
     CreateMap None sb = Ok (mkScriptBuilder (buff sb ++ [NEWMAP]) (errs sb)) /\
     CreateMap (Some []) sb = Ok (mkScriptBuilder (buff sb ++ [NEWMAP]) (errs sb))) /\
  (forall ps outs sb,
     Forall2 (fun kv o => EmitPushObject (fst kv) NewScriptBuilder = Ok (fst o) /\
                          EmitPushObject (snd kv) NewScriptBuilder = Ok (snd o))
             ps outs ->
     CreateMap (Some ps) sb
     = Ok (mkScriptBuilder
             (buff sb ++ NEWMAP
                :: concat (map (fun o => DUP :: buff (fst o) ++ buff (snd o) ++ [SETITEM])
                               outs))
             (errs sb ++ concat (map (fun o => errs (fst o) ++ errs (snd o)) outs)))).
Proof.
  split.
  - intros sb. split; reflexivity.
  - intros ps outs sb H. unfold CreateMap, CreateMap_with. cbv zeta.
    rewrite (range_outputs ps outs _ H). rewrite Emit_None. cbn [buff errs].
    now rewrite <- app_assoc.
Qed.

(** X10.  [EmitSysCallWithParam] pushes the arguments from the last to the
    first and then emits the system call; with nil arguments it is
    [EmitSysCall] alone. *)
Theorem EmitSysCallWithParam_order (method : Z) (sb : ScriptBuilder) :
  EmitSysCallWithParam method None sb = Ok (EmitSysCall method sb) /\
  forall args,
    EmitSysCallWithParam method (Some args) sb
    = (sb' <- push_each EmitPushObject (rev args) sb ;; Ok (EmitSysCall method sb')).
Proof.
  split; [reflexivity|]. intros args. unfold EmitSysCallWithParam.
  rewrite for_down_push_each by lia. now rewrite firstn_all.
Qed.

Lemma for_down_map {A B : Type} (f : A -> B)
    (push : B -> ScriptBuilder -> Result ScriptBuilder) (a : list A) (i : nat)
    (sb : ScriptBuilder) :
  for_down push (map f a) i sb = for_down (fun x => push (f x)) a i sb.
Proof.
  revert sb. induction i as [|j IH]; intros sb; [reflexivity|].
  cbn [for_down]. rewrite nth_error_map.
  destruct (nth_error a j) as [x|]; cbn [option_map]; [|reflexivity].
  destruct (push (f x) sb); cbn [bind]; [apply IH | reflexivity].
Qed.

(** X11.  [EmitDynamicCallParam] on declared parameters is
    [EmitDynamicCallObj] on the same parameters taken as native values. *)
Theorem EmitDynamicCallParam_as_Obj (scriptHash : UInt160) (operation : list byte)
    (args : slice ContractParameter) (sb : ScriptBuilder) :
  EmitDynamicCallParam scriptHash operation args sb
  = EmitDynamicCallObj scriptHash operation (option_map (map VParam) args) sb.
Proof.
  unfold EmitDynamicCallParam, EmitDynamicCallObj. cbv zeta.
  destruct args as [a|]; cbn [option_map len].
  - rewrite length_map, for_down_map. reflexivity.
  - reflexivity.
Qed.

(** X12.  [MakeScript] is [CreateArray] on the arguments, then the end
    common to the dynamic calls, then [ToArray], for every argument list, nil
    and empty included.  [EmitDynamicCall] is that end after [CreateArray] on
    nil, and [EmitDynamicCallObj] on a list that is not empty is that end
    after [CreateArray] on the list. *)
Theorem MakeScript_as_CreateArray (scriptHash : UInt160) (operation : list byte)
    (objs : slice GoValue) :
  Z.of_nat (len objs) < 2 ^ 63 ->
  (forall sb,
     objs <> None -> objs <> Some [] ->
     EmitDynamicCallObj scriptHash operation objs sb
     = (sb' <- CreateArray objs sb ;; invoke_tail scriptHash operation sb')) /\
  (forall sb,
     EmitDynamicCall scriptHash operation sb
     = (sb' <- CreateArray None sb ;; invoke_tail scriptHash operation sb')) /\
  MakeScript scriptHash operation objs
  = (sb1 <- CreateArray objs NewScriptBuilder ;;
     sb2 <- invoke_tail scriptHash operation sb1 ;;
     Ok (ToArray sb2)).
Proof.
  intros Hlen.
  assert (HObj : forall l sb,
             l <> [] -> Z.of_nat (length l) < 2 ^ 63 ->
             EmitDynamicCallObj scriptHash operation (Some l) sb
             = (sb' <- CreateArray (Some l) sb ;; invoke_tail scriptHash operation sb')).
  { intros l sb Hl Hn. unfold EmitDynamicCallObj, CreateArray, invoke_tail. cbv zeta.
    cbn [len].
    destruct (Nat.eqb_spec (length l) 0) as [E|_];
      [destruct l; [congruence | discriminate]|].
    destruct (for_down EmitPushObject l (length l) sb); reflexivity. }
  split; [|split].
  - intros sb Hnone Hnil. destruct objs as [l|]; [|congruence].
    apply HObj; [congruence | exact Hlen].
  - intros sb. reflexivity.
  - unfold MakeScript. destruct objs as [[|x l]|]; cbn [len length Nat.ltb Nat.leb andb].
    + reflexivity.
    + rewrite HObj by (discriminate || exact Hlen).
      destruct (CreateArray (Some (x :: l)) NewScriptBuilder); reflexivity.
    + reflexivity.
Qed.

(** X13.  With a nil or an empty list [EmitDynamicCallObj] does not emit
    [NEWARRAY0]: it packs zero elements, appending [PUSH0] and [PACK] before
    the common end. *)
Theorem EmitDynamicCallObj_empty (scriptHash : UInt160) (operation : list byte)
    (sb : ScriptBuilder) :
  is_byte PUSH0 ->
  EmitDynamicCallObj scriptHash operation None sb
  = invoke_tail scriptHash operation
      (mkScriptBuilder (buff sb ++ [PUSH0; PACK]) (errs sb)) /\
  EmitDynamicCallObj scriptHash operation (Some []) sb
  = invoke_tail scriptHash operation
      (mkScriptBuilder (buff sb ++ [PUSH0; PACK]) (errs sb)).
Proof.
  intros H0. unfold is_byte in H0.
  assert (E : Emit PACK None (EmitPushInteger (VInt KInt (Z.of_nat 0)) sb)
              = mkScriptBuilder (buff sb ++ [PUSH0; PACK]) (errs sb)).
  { cbn [EmitPushInteger]. change (to_int64 (Z.of_nat 0)) with 0.
    unfold EmitPushBigInt. change ((-1 <=? 0) && (0 <=? 16)) with true. cbv iota zeta.
    change (to_byte (to_int64 0)) with 0. unfold to_byte.
    rewrite Z.add_0_r, Z.mod_small by lia.
    rewrite !Emit_None. cbn [buff errs]. now rewrite <- app_assoc. }
  split; unfold EmitDynamicCallObj, invoke_tail; cbv zeta;
    cbn [len length for_down bind]; rewrite E; reflexivity.
Qed.

(** X14.  A parameter with the tag Array and at least one element is pushed
    as [CreateArray] pushes the list of its elements taken as native
    values. *)
Theorem Array_parameter_as_CreateArray (a : list ContractParameter) (sb : ScriptBuilder) :
  a <> [] ->
  EmitPushParameter (mkContractParameter Array (VParams a)) sb
  = CreateArray (Some (map VParam a)) sb.
Proof.
  intros Ha. cbn [EmitPushParameter]. unfold CreateArray.
  rewrite length_map.
  destruct (Nat.eqb_spec (length a) 0) as [E|_];
    [destruct a; [congruence | discriminate]|].
  rewrite for_rev_for_down, for_down_map. reflexivity.
Qed.

End CompositeCalls.

(** ** When a push panics *)




Section Panics.
Context {opcodes : OpCodes} {externals : Externals}.







End Panics.

(** ** The further properties at concrete inputs, on the opcodes of Neo N3 *)

Lemma EmitCall_forms_witness :
  EmitCall (opcodes := neo_opcodes) (-128) NewScriptBuilder
  = mkScriptBuilder [0x34; 0x80] [] /\
  EmitCall (opcodes := neo_opcodes) (-129) NewScriptBuilder
  = mkScriptBuilder [0x35; 0x7F; 0xFF; 0xFF; 0xFF] [].
Proof.
  split.
  - apply (proj1 (EmitCall_forms (opcodes := neo_opcodes) (-128) NewScriptBuilder)).
    lia.
  - apply (proj2 (EmitCall_forms (opcodes := neo_opcodes) (-129) NewScriptBuilder)).
    left. lia.
Defined.

Lemma EmitPushBigInt_growth_witness :
  (32 < length (BigIntToNeoBytes (2 ^ 255)))%nat /\
  buff (EmitPushBigInt (opcodes := neo_opcodes) (2 ^ 255) NewScriptBuilder) = [] /\
  errs (EmitPushBigInt (opcodes := neo_opcodes) (2 ^ 255) NewScriptBuilder)
  = ["argument out of range: number"%string].
Proof.
  assert (H : (32 < length (BigIntToNeoBytes (2 ^ 255)))%nat)
    by (apply Nat.ltb_lt; reflexivity).
  split; [exact H|].
  exact (proj2 (EmitPushBigInt_growth (opcodes := neo_opcodes) (2 ^ 255)
                  NewScriptBuilder) H).
Defined.

Lemma integer_pushes_agree_witness :
  - 2 ^ 63 <= 200 < 2 ^ 63 /\
  EmitPushObject (opcodes := neo_opcodes) (VInt KUint8 200) NewScriptBuilder
  = Ok (mkScriptBuilder [0x01; 200; 0] []).
Proof.
  assert (H : - 2 ^ 63 <= 200 < 2 ^ 63)
    by (change (2 ^ 63) with 9223372036854775808; lia).
  split; [exact H|].
  rewrite (proj1 (proj2 (integer_pushes_agree (opcodes := neo_opcodes) KUint8 200
                           NewScriptBuilder H))).
  reflexivity.
Defined.

Lemma EmitPushBool_as_integer_witness :
  EmitPushBool (opcodes := neo_opcodes) true NewScriptBuilder
  = EmitPushBigInt (opcodes := neo_opcodes) 1 NewScriptBuilder.
Proof.
  apply (EmitPushBool_as_integer (opcodes := neo_opcodes) true NewScriptBuilder);
    cbn; lia.
Defined.

Lemma EmitPushBytes_injective_witness :
  EmitPushBytes (opcodes := neo_opcodes) (Some [1; 2]) NewScriptBuilder
  = EmitPushBytes (opcodes := neo_opcodes) (Some [1; 2]) NewScriptBuilder /\
  [1; 2] = [1; 2].
Proof.
  split; [reflexivity|].
  exact (EmitPushBytes_injective (opcodes := neo_opcodes) [1; 2] [1; 2]
           NewScriptBuilder eq_refl).
Defined.

Lemma EmitRaw_splice_witness :
  exists sb',
    perform (opcodes := neo_opcodes) (externals := neo_externals)
      (DoEmitPushBool true) (mkScriptBuilder [1; 2] []) = Ok sb' /\
    buff (EmitRaw (Some [0x11]) (mkScriptBuilder [1; 2] [])) = buff sb'.
Proof.
  exact (proj2 (proj2 (EmitRaw_splice (opcodes := neo_opcodes)
                         (externals := neo_externals)))
           (DoEmitPushBool true) (mkScriptBuilder [0x11] [])
           (mkScriptBuilder [1; 2] []) eq_refl).
Defined.

Lemma EmitJump_invalid_opcode_still_emits_witness :
  errs (EmitJump (opcodes := neo_opcodes) 0x10 1 NewScriptBuilder)
  = ["argument out of range: invalid OpCode"%string] /\
  buff (EmitJump (opcodes := neo_opcodes) 0x10 1 NewScriptBuilder) = [0x10; 1].
Proof.
  apply (EmitJump_invalid_opcode_still_emits (opcodes := neo_opcodes) 0x10 1
           NewScriptBuilder);
    [unfold is_byte; lia | left; cbn; lia].
Defined.

Lemma CreateMap_layout_witness :
  CreateMap (opcodes := neo_opcodes) (Some [(VString [97], VBool true)])
    NewScriptBuilder
  = Ok (mkScriptBuilder [0xC8; 0x4A; 0x0C; 1; 97; 0x11; 0xD0] []).
Proof.
  apply (proj2 (CreateMap_layout (opcodes := neo_opcodes))
           [(VString [97], VBool true)]
           [(mkScriptBuilder [0x0C; 1; 97] [], mkScriptBuilder [0x11] [])]
           NewScriptBuilder).
  repeat constructor.
Defined.

Lemma MakeScript_as_CreateArray_witness :
  Z.of_nat (len (Some [VBool true])) < 2 ^ 63 /\
  MakeScript (opcodes := neo_opcodes) (externals := neo_externals)
    [1; 2; 3] [116] (Some [VBool true])
  = (sb1 <- CreateArray (opcodes := neo_opcodes) (Some [VBool true]) NewScriptBuilder ;;
     sb2 <- invoke_tail (opcodes := neo_opcodes) (externals := neo_externals)
              [1; 2; 3] [116] sb1 ;;
     Ok (ToArray (externals := neo_externals) sb2)).
Proof.
  assert (H : Z.of_nat (len (Some [VBool true])) < 2 ^ 63) by reflexivity.
  split; [exact H|].
  exact (proj2 (proj2 (MakeScript_as_CreateArray (opcodes := neo_opcodes)
                         (externals := neo_externals) [1; 2; 3] [116]
                         (Some [VBool true]) H))).
Defined.

Lemma EmitDynamicCallObj_empty_witness :
  EmitDynamicCallObj (opcodes := neo_opcodes) (externals := neo_externals)
    [1; 2; 3] [116] (Some []) NewScriptBuilder
  = Ok (mkScriptBuilder
          [0x10; 0xC0; 0x1F; 0x0C; 1; 116; 0x0C; 3; 1; 2; 3; 0x41; 0x62; 0x7D; 0x5B; 0x52]
          []).
Proof.
  assert (H : is_byte (PUSH0 (OpCodes := neo_opcodes)))
    by (unfold is_byte; cbn; lia).
  rewrite (proj2 (EmitDynamicCallObj_empty (opcodes := neo_opcodes)
                    (externals := neo_externals) [1; 2; 3] [116] NewScriptBuilder H)).
  reflexivity.
Defined.

Lemma Array_parameter_as_CreateArray_witness :
  EmitPushParameter (opcodes := neo_opcodes)
    (mkContractParameter Array (VParams [mkContractParameter Boolean (VBool true)]))
    NewScriptBuilder
  = Ok (mkScriptBuilder [0x11; 0x11; 0xC0] []).
Proof.
  rewrite (Array_parameter_as_CreateArray (opcodes := neo_opcodes)
             [mkContractParameter Boolean (VBool true)] NewScriptBuilder)
    by discriminate.
  reflexivity.
Defined.


